(** * Ticket_System_API: the connection registry, the ticket workflow store
      and the routers that tie them together.

    Shallow embedding of
      - app/schemas.py, app/models.py          (enumerations, rows, response schemas)
      - app/websocket_manager.py               (ConnectionManager)
      - app/auth.py, app/dependencies.py       (token resolution, role gates)
      - operations/ticket_operations.py        (the workflow store)
      - operations/auth_operation.py           (user rows)
      - routers/ticket_router.py, routers/websocket_router.py,
        routers/auth_router.py

    Coroutines are modelled as state-passing functions that either return a
    value or raise; a mutation made before a raise stays made, as in Python. *)

From stdpp Require Import gmap strings list pretty.
From Stdlib Require Import ZArith Sorted.

Local Open Scope string_scope.
Local Open Scope Z_scope.
Local Open Scope list_scope.

(** ** Exceptions and the state-and-exception monad *)

(** [DriverError] stands for what the database driver raises for a
    parameter it cannot bind (asyncpg's [DataError] under a [DBAPIError],
    sqlite3's [OverflowError]). *)
Inductive exn : Type :=
  | WebSocketDisconnect
  | RuntimeError
  | AttributeError
  | KeyError
  | IntegrityError
  | InvalidRequestError
  | DriverError
  | HTTPException (status_code : Z) (detail : string).

Inductive result (A : Type) : Type :=
  | Ok (a : A)
  | Raise (e : exn).
Arguments Ok {A} a.
Arguments Raise {A} e.

(** A coroutine over a state [S]: the state is threaded through, and handed
    back on a raise as well. *)
Definition M (S A : Type) : Type := S → result A * S.

Definition ret {S A} (a : A) : M S A := λ s, (Ok a, s).
Definition raise {S A} (e : exn) : M S A := λ s, (Raise e, s).
Definition bind {S A B} (m : M S A) (k : A → M S B) : M S B :=
  λ s, match m s with
       | (Ok a, s') => k a s'
       | (Raise e, s') => (Raise e, s')
       end.
Definition get {S} : M S S := λ s, (Ok s, s).
Definition modify {S} (f : S → S) : M S unit := λ s, (Ok tt, f s).

(** [try: body except e: handler e]; a handler of [None] lets [e] through. *)
Definition try_except {S A} (body : M S A) (handler : exn → option (M S A)) : M S A :=
  λ s, match body s with
       | (Ok a, s') => (Ok a, s')
       | (Raise e, s') =>
           match handler e with
           | Some h => h s'
           | None => (Raise e, s')
           end
       end.

Notation "'let*' x ':=' m 'in' k" := (bind m (λ x, k))
  (at level 10, x name, m at level 100, k at level 200).
Notation "m ';;' k" := (bind m (λ _, k))
  (at level 100, k at level 200, right associativity).

(** [for x in l: body x] *)
Fixpoint for_each {S A} (l : list A) (body : A → M S unit) : M S unit :=
  match l with
  | [] => ret tt
  | x :: l' => body x ;; for_each l' body
  end.

(** Python truthiness of an optional string: [None] and [""] are falsy. *)
Definition truthy (o : option string) : bool :=
  match o with
  | None => false
  | Some s => negb (String.eqb s "")
  end.

(** ** app/schemas.py *)

Module schemas.

Inductive UserRole : Type := user | agent.
Inductive TicketStatus : Type := open | in_review | close.

#[global] Instance UserRole_eq_dec : EqDecision UserRole.
Proof. solve_decision. Defined.
#[global] Instance TicketStatus_eq_dec : EqDecision TicketStatus.
Proof. solve_decision. Defined.

(** The value of a member of the string-backed enumeration. *)
Definition TicketStatus_value (s : TicketStatus) : string :=
  match s with
  | open => "open"
  | in_review => "in_review"
  | close => "close"
  end.

Module TicketRead.
Record t : Type := mk
  { id : Z; title : string; description : option string;
    status : TicketStatus; created_by : Z }.
End TicketRead.

Module ReplyRead.
Record t : Type := mk { id : Z; message : string; replied_by : Z }.
End ReplyRead.

Module TicketDetail.
Record t : Type := mk { ticket : TicketRead.t; replies : list ReplyRead.t }.
End TicketDetail.

Module Token.
Record t : Type := mk { access_token : string; token_type : string }.
End Token.

Module UserCreate.
Record t : Type := mk { email : string; password : string; role : UserRole }.
End UserCreate.

Module UserRead.
Record t : Type := mk { id : Z; email : string; role : UserRole }.
End UserRead.

End schemas.

(** ** app/models.py: the rows of the three tables *)

Module models.

Module User.
Record t : Type := mk
  { id : Z; email : string; hashed_password : string; role : schemas.UserRole }.
End User.

Module Ticket.
Record t : Type := mk
  { id : Z; title : string; description : option string;
    status : schemas.TicketStatus; created_at : Z; created_by : Z }.
End Ticket.

Module Reply.
Record t : Type := mk
  { id : Z; ticket_id : Z; message : string; created_at : Z; replied_by : Z }.
End Reply.

End models.

(** ** app/websocket_manager.py *)

Module websocket_manager.

(** A socket object, compared by identity ([ws in connections] and
    [connections.remove(ws)] go through [==], which is [is] on sockets). *)
Definition WebSocket : Type := nat.

(** What the application asks of a socket. *)
Inductive call : Type :=
  | Accept (ws : WebSocket)
  | SendText (ws : WebSocket) (message : string)
  | Close (ws : WebSocket) (code : Z).

#[global] Instance call_eq_dec : EqDecision call.
Proof. solve_decision. Defined.

(** [active] is [ConnectionManager.active]; [wire] records, in order, every
    call made on a socket, whether it returned or raised. *)
Record ConnectionManager : Type := mk
  { active : gmap Z (list WebSocket); wire : list call }.

(** [__init__] *)
Definition init : ConnectionManager := mk ∅ [].

(** [self.active.get(ticket_id, [])] *)
Definition room (ticket_id : Z) (self : ConnectionManager) : list WebSocket :=
  default [] (active self !! ticket_id).

(** [connections.remove(ws)]: drops the first occurrence. *)
Fixpoint remove (ws : WebSocket) (connections : list WebSocket) : list WebSocket :=
  match connections with
  | [] => []
  | x :: rest => if decide (x = ws) then rest else x :: remove ws rest
  end.

Section Manager.
(** The socket library is not part of the repository: whether a call on a
    socket returns ([None]) or raises is left to [transport], which sees the
    calls made so far. *)
Variable transport : list call → call → option exn.

Definition ws_call (c : call) : M ConnectionManager unit :=
  λ self,
    let self' := mk (active self) (wire self ++ [c]) in
    match transport (wire self) c with
    | None => (Ok tt, self')
    | Some e => (Raise e, self')
    end.

(** [await ws.accept()], then [self.active.setdefault(ticket_id, []).append(ws)]. *)
Definition connect (ticket_id : Z) (ws : WebSocket) : M ConnectionManager unit :=
  ws_call (Accept ws) ;;
  modify (λ self,
    mk (<[ticket_id := room ticket_id self ++ [ws]]> (active self)) (wire self)).

(** A plain method: it makes no call on the socket. A ticket with no entry
    gets none ([get] hands out a fresh list). *)
Definition disconnect (ticket_id : Z) (ws : WebSocket)
    (self : ConnectionManager) : ConnectionManager :=
  match active self !! ticket_id with
  | None => self
  | Some connections =>
      if decide (ws ∈ connections)
      then mk (<[ticket_id := remove ws connections]> (active self)) (wire self)
      else self
  end.

(** [for ws in self.active.get(ticket_id, []): await ws.send_text(message)];
    there is no [try] around the send. *)
Definition broadcast (ticket_id : Z) (message : string) : M ConnectionManager unit :=
  let* self := get in
  for_each (room ticket_id self) (λ ws, ws_call (SendText ws message)).

End Manager.

End websocket_manager.

(** ** The persisted state behind an [AsyncSession] *)

Module database.
Import models.

(** [users] and [replies] are kept in the order the rows were inserted;
    [tickets] is keyed by its primary key. The two sequences feed the
    autoincrement ids, [now] is the server's clock ([func.now()]), and
    [foreign_keys] says whether the engine enforces the declared
    [ForeignKey]s (PostgreSQL of database.py does, the SQLite file of
    tests/conftest.py does not). [integer_bound] is the range of an
    [Integer] column as the driver binds it: the integers from
    [- integer_bound] up to, not including, [integer_bound] ([2^31] on
    PostgreSQL, [2^63] on SQLite). *)
Record DB : Type := mk
  { users : list User.t;
    tickets : gmap Z Ticket.t;
    replies : list Reply.t;
    tickets_id_seq : Z;
    replies_id_seq : Z;
    now : Z;
    foreign_keys : bool;
    integer_bound : Z }.

(** The driver can bind [z] as a parameter for an [Integer] column. An
    integer out of range is refused by the driver, before the statement
    reaches the engine. *)
Definition bindable (db : DB) (z : Z) : bool :=
  bool_decide (- integer_bound db ≤ z < integer_bound db).

(** [select(User).where(User.id == user_id)], first row. *)
Definition user_by_id (db : DB) (user_id : Z) : option User.t :=
  List.find (λ u, bool_decide (User.id u = user_id)) (users db).

(** [select(User).where(User.email == email)], first row. *)
Definition user_by_email (db : DB) (email : string) : option User.t :=
  List.find (λ u, bool_decide (User.email u = email)) (users db).

(** A [ForeignKey("users.id")] column holding [user_id] may be written. *)
Definition references_user (db : DB) (user_id : Z) : bool :=
  negb (foreign_keys db) || bool_decide (is_Some (user_by_id db user_id)).

(** The driver can bind [user_id] for a [users.id] foreign key: it is the
    id of a stored user (read from an [Integer] column, so in range), or
    another integer in range. *)
Definition binds_user (db : DB) (user_id : Z) : bool :=
  bool_decide (is_Some (user_by_id db user_id)) || bindable db user_id.

(** Time passing on the server between two requests. *)
Definition tick (db : DB) : DB :=
  mk (users db) (tickets db) (replies db) (tickets_id_seq db) (replies_id_seq db)
     (now db + 1) (foreign_keys db) (integer_bound db).

End database.

(** ** app/auth.py and app/dependencies.py *)

Module auth.
Import models database.

Section Auth.
(** [jwt.decode(token, SECRET_KEY, algorithms=[ALGORITHM])]: the claim set of
    a well-signed, unexpired token, [None] for [JWTError]. *)
Variable jwt_decode : string → option (gmap string string).

(** Both failure paths [return None]; nothing is raised. *)
Definition get_current_user (token : string) (db : DB) : option User.t :=
  match jwt_decode token with
  | None => None
  | Some payload =>
      match payload !! "sub" with
      | None => None
      | Some email => user_by_email db email
      end
  end.

Definition validate_websocket_token (token : string) (db : DB) : option User.t :=
  get_current_user token db.

End Auth.

Section Credentials.
(** The password context and the token signer are libraries. [pwd_hash]
    takes the salt it draws as a first argument; [pwd_verify] is
    [pwd_context.verify]; [jwt_encode] is [jwt.encode] under the process's
    key. *)
Variable pwd_hash : string → string → string.
Variable pwd_verify : string → string → bool.
Variable jwt_encode : gmap string string → string.

Definition hash_password (salt password : string) : string :=
  pwd_hash salt password.

Definition verify_password (plain_password hashed_password : string) : bool :=
  pwd_verify plain_password hashed_password.

(** [to_encode = data.copy(); to_encode.update({"exp": expire})], with
    [expire] [expires_minutes] after [utcnow], in seconds. *)
Definition create_access_token (data : gmap string string)
    (expires_minutes utcnow : Z) : string :=
  jwt_encode (<["exp" := pretty (utcnow + expires_minutes * 60)]> data).

Definition authenticate_user (email password : string) (db : DB) : option User.t :=
  match user_by_email db email with
  | None => None
  | Some user =>
      if negb (verify_password password (User.hashed_password user))
      then None
      else Some user
  end.

End Credentials.
End auth.

Module dependencies.
Import models.

(** [user] is what [get_current_user] returned; reading [.role] off [None]
    raises. *)
Definition require_user (user : option User.t) : result User.t :=
  match user with
  | None => Raise AttributeError
  | Some u =>
      if decide (User.role u ≠ schemas.user)
      then Raise (HTTPException 403 "Users only.")
      else Ok u
  end.

Definition require_agent (user : option User.t) : result User.t :=
  match user with
  | None => Raise AttributeError
  | Some u =>
      if decide (User.role u ≠ schemas.agent)
      then Raise (HTTPException 403 "Agents only.")
      else Ok u
  end.

End dependencies.

(** ** operations/ticket_operations.py *)

Module ticket_operations.
Import models database.

(** A ticket as [get_ticket] loads it: the row, with [ticket.replies] and
    [ticket.creator] resolved. *)
Record loaded : Type := mk_loaded
  { ticket : Ticket.t; replies_of : list Reply.t; creator : option User.t }.

Section Operations.
(** [Ticket.replies] is a [relationship] without [order_by], and the
    [select] has no [order_by] either: the order of the loaded replies is
    the engine's. [row_order] is that order, applied to the matching rows
    listed as they were inserted. *)
Variable row_order : list Reply.t → list Reply.t.

(** [db.add(ticket); commit; refresh]: [id], [status] and [created_at] are
    filled in by the column defaults. *)
Definition create_ticket (title : string) (description : option string)
    (created_by : Z) : M DB Ticket.t :=
  λ db,
    if negb (binds_user db created_by) then (Raise DriverError, db)
    else if references_user db created_by then
      let ticket :=
        Ticket.mk (tickets_id_seq db) title description schemas.open (now db) created_by in
      (Ok ticket,
       mk (users db) (<[Ticket.id ticket := ticket]> (tickets db)) (replies db)
          (tickets_id_seq db + 1) (replies_id_seq db) (now db) (foreign_keys db) (integer_bound db))
    else (Raise IntegrityError, db).

(** The [select] binds [ticket_id] as a parameter: an id that is no stored
    key and is out of the [Integer] range makes the driver raise; stored
    keys are in range. *)
Definition get_ticket (ticket_id : Z) (db : DB) : result (option loaded) :=
  match tickets db !! ticket_id with
  | None => if bindable db ticket_id then Ok None else Raise DriverError
  | Some t =>
      Ok (Some (mk_loaded t
                  (row_order (filter (λ r, Reply.ticket_id r = ticket_id) (replies db)))
                  (user_by_id db (Ticket.created_by t))))
  end.

Definition add_reply (ticket_id : Z) (message : string) (replied_by : Z)
    : M DB (option Reply.t) :=
  λ db,
    match tickets db !! ticket_id with
    | None =>
        if bindable db ticket_id then (Ok None, db) else (Raise DriverError, db)
    | Some _ =>
        if negb (binds_user db replied_by) then (Raise DriverError, db)
        else if references_user db replied_by then
          let reply :=
            Reply.mk (replies_id_seq db) ticket_id message (now db) replied_by in
          (Ok (Some reply),
           mk (users db) (tickets db) (replies db ++ [reply])
              (tickets_id_seq db) (replies_id_seq db + 1) (now db) (foreign_keys db) (integer_bound db))
        else (Raise IntegrityError, db)
    end.

(** [ticket.status = ticket_status; commit; refresh; return ticket].
    [ticket] stands for the session's object of the row with its id: the
    commit writes the object to that row, and [refresh] reads the row back.
    When the store has no such row the object is not persistent: the commit
    writes nothing and [refresh] raises. *)
Definition change_ticket_status (ticket : Ticket.t)
    (ticket_status : schemas.TicketStatus) : M DB Ticket.t :=
  λ db,
    match tickets db !! Ticket.id ticket with
    | None => (Raise InvalidRequestError, db)
    | Some _ =>
        let ticket' :=
          Ticket.mk (Ticket.id ticket) (Ticket.title ticket) (Ticket.description ticket)
                    ticket_status (Ticket.created_at ticket) (Ticket.created_by ticket) in
        (Ok ticket',
         mk (users db) (<[Ticket.id ticket := ticket']> (tickets db)) (replies db)
            (tickets_id_seq db) (replies_id_seq db) (now db) (foreign_keys db)
            (integer_bound db))
    end.

Definition get_ticket_with_replies (ticket_id : Z) (db : DB)
    : result (option (loaded * list Reply.t)) :=
  match get_ticket ticket_id db with
  | Raise e => Raise e
  | Ok None => Ok None
  | Ok (Some t) => Ok (Some (t, replies_of t))
  end.

End Operations.
End ticket_operations.

(** ** routers/ticket_router.py *)

Module ticket_router.
Import models database websocket_manager.

(** The jobs handed to the task queue with [.delay(...)] (app/tasks.py). *)
Inductive task : Type :=
  | send_email_notification (email message : string)
  | log_reply (ticket_id : Z) (message agent_email : string).

(** What a request handler can touch: the session's store, the process-wide
    [manager], and the task queue. *)
Record App : Type := mk
  { db : DB; manager : ConnectionManager; celery : list task }.

Definition with_db {A} (m : M DB A) : M App A :=
  λ app, let '(r, db') := m (db app) in (r, mk db' (manager app) (celery app)).

Definition with_manager {A} (m : M ConnectionManager A) : M App A :=
  λ app, let '(r, manager') := m (manager app) in (r, mk (db app) manager' (celery app)).

Definition delay (t : task) : M App unit :=
  modify (λ app, mk (db app) (manager app) (celery app ++ [t])).

Definition depends {A} (r : result A) : M App A := λ app, (r, app).

(** A read of the store: what it returns or raises, the store as it was. *)
Definition reads {A} (query : DB → result A) : M App A :=
  λ app, (query (db app), app).

(** [response_model=schemas.TicketRead] and [schemas.ReplyRead], both
    [from_attributes]. *)
Definition TicketRead_of (t : Ticket.t) : schemas.TicketRead.t :=
  schemas.TicketRead.mk (Ticket.id t) (Ticket.title t) (Ticket.description t)
    (Ticket.status t) (Ticket.created_by t).

Definition ReplyRead_of (r : Reply.t) : schemas.ReplyRead.t :=
  schemas.ReplyRead.mk (Reply.id r) (Reply.message r) (Reply.replied_by r).

(** [f"New reply by {agent.email}: {payload.message}"] *)
Definition reply_notice (agent : User.t) (message : string) : string :=
  "New reply by " +:+ User.email agent +:+ ": " +:+ message.

Section Routes.
Variable transport : list call → call → option exn.
Variable row_order : list Reply.t → list Reply.t.
(** The text an f-string gives for [ticket.status], a member of a [str]-mixin
    [Enum]: it differs between Python versions, so it is left open. *)
Variable format_status : schemas.TicketStatus → string.

(** [GET /tickets/{ticket_id}], [current_user = Depends(get_current_user)]. *)
Definition get_ticket_detail (ticket_id : Z) (current_user : option User.t)
    : M App schemas.TicketDetail.t :=
  let* data := reads (ticket_operations.get_ticket_with_replies row_order ticket_id) in
  match data with
  | None => raise (HTTPException 404 "Ticket not found")
  | Some (ticket, replies) =>
      match current_user with
      | None => raise AttributeError
      | Some current_user =>
          let is_user := bool_decide (User.role current_user = schemas.user) in
          let is_not_owner :=
            bool_decide (Ticket.created_by (ticket_operations.ticket ticket)
                         ≠ User.id current_user) in
          if is_user && is_not_owner
          then raise (HTTPException 403 "Not allowed")
          else ret (schemas.TicketDetail.mk
                      (TicketRead_of (ticket_operations.ticket ticket))
                      (map ReplyRead_of replies))
      end
  end.

(** [POST /tickets/{ticket_id}/reply], [agent = Depends(require_agent)]. *)
Definition add_reply (ticket_id : Z) (message : string) (current_user : option User.t)
    : M App schemas.ReplyRead.t :=
  let* agent := depends (dependencies.require_agent current_user) in
  let* ticket := reads (ticket_operations.get_ticket row_order ticket_id) in
  match ticket with
  | None => raise (HTTPException 404 "Ticket not found")
  | Some ticket =>
      let* reply :=
        with_db (ticket_operations.add_reply ticket_id message (User.id agent)) in
      match reply with
      | None => raise (HTTPException 404 "Ticket not found")
      | Some reply =>
          with_manager (broadcast transport ticket_id (reply_notice agent message)) ;;
          (let creator_email := User.email <$> ticket_operations.creator ticket in
           match creator_email with
           | Some email =>
               if truthy creator_email
               then delay (send_email_notification email
                             ("Your ticket #" +:+ pretty ticket_id +:+ " has a new reply."))
               else ret tt
           | None => ret tt
           end) ;;
          delay (log_reply ticket_id message (User.email agent)) ;;
          ret (ReplyRead_of reply)
      end
  end.

(** [PATCH /tickets/{ticket_id}/status], [agent = Depends(require_agent)]. *)
Definition update_status (ticket_id : Z) (status : schemas.TicketStatus)
    (current_user : option User.t) : M App schemas.TicketRead.t :=
  let* agent := depends (dependencies.require_agent current_user) in
  let* ticket := reads (ticket_operations.get_ticket row_order ticket_id) in
  match ticket with
  | None => raise (HTTPException 404 "Ticket not found")
  | Some ticket =>
      let* ticket :=
        with_db (ticket_operations.change_ticket_status
                   (ticket_operations.ticket ticket) status) in
      with_manager
        (broadcast transport ticket_id
           ("Status changed to " +:+ format_status (Ticket.status ticket))) ;;
      ret (TicketRead_of ticket)
  end.

End Routes.

(** [POST /tickets/], [current_user = Depends(require_user)], under
    [@limiter.limit("5/minute")]. The limiter is a library: [limit] is what
    it decides for this request, [None] to let it through or the exception
    it raises. The dependency is resolved before the limiter is asked. *)
Definition create_ticket (title : string) (description : option string)
    (limit : option exn) (current_user : option User.t)
    : M App schemas.TicketRead.t :=
  let* current_user := depends (dependencies.require_user current_user) in
  match limit with
  | Some e => raise e
  | None =>
      let* ticket :=
        with_db (ticket_operations.create_ticket title description
                   (User.id current_user)) in
      ret (TicketRead_of ticket)
  end.

End ticket_router.

(** ** routers/websocket_router.py *)

Module websocket_router.
Import websocket_manager.

(** What a client sends on an open socket. *)
Inductive frame : Type :=
  | Text (data : string)
  | Bytes (data : list Byte.byte).

(** [while True: await websocket.receive_text()]. [inbox] is what the
    client sends before it goes away. A text frame is read and dropped; on
    a binary frame [receive_text] finds no ["text"] in the message and
    raises [KeyError]; once the client is gone it raises
    [WebSocketDisconnect]. *)
Fixpoint receive_loop (inbox : list frame) : M ConnectionManager unit :=
  match inbox with
  | [] => raise WebSocketDisconnect
  | Text _ :: rest => receive_loop rest
  | Bytes _ :: _ => raise KeyError
  end.

Section Endpoint.
Variable transport : list call → call → option exn.

(** [/ws/tickets/{ticket_id}]; [query_params] is the query string of the
    upgrade request. *)
Definition ticket_ws (ticket_id : Z) (websocket : WebSocket)
    (query_params : gmap string string) (inbox : list frame)
    : M ConnectionManager unit :=
  let token := query_params !! "token" in
  if negb (truthy token) then
    ws_call transport (Close websocket 4401)
  else
    try_except
      (connect transport ticket_id websocket ;; receive_loop inbox)
      (λ e, match e with
            | WebSocketDisconnect => Some (modify (disconnect ticket_id websocket))
            | _ => None
            end).

End Endpoint.
End websocket_router.

(** ** operations/auth_operation.py *)

Module auth_operation.
Import models database.

Section Users.
(** The value the sequence behind [users.id] hands out for the next row. *)
Variable users_id_seq : DB → Z.

(** [db.add(user); commit; refresh]. [id] is the primary key and [email] is
    [unique=True]: a row that repeats either is refused at the commit. *)
Definition create_user (email hashed_password : string) (role : schemas.UserRole)
    : M DB User.t :=
  λ db,
    let user := User.mk (users_id_seq db) email hashed_password role in
    if bool_decide (is_Some (user_by_email db email))
       || bool_decide (is_Some (user_by_id db (User.id user)))
    then (Raise IntegrityError, db)
    else
      (Ok user,
       mk (users db ++ [user]) (tickets db) (replies db)
          (tickets_id_seq db) (replies_id_seq db) (now db) (foreign_keys db) (integer_bound db)).

Definition get_user_by_email (email : string) (db : DB) : option User.t :=
  user_by_email db email.

End Users.
End auth_operation.

(** ** routers/auth_router.py *)

Module auth_router.
Import models database.

Definition UserRead_of (u : User.t) : schemas.UserRead.t :=
  schemas.UserRead.mk (User.id u) (User.email u) (User.role u).

Section Routes.
Variable users_id_seq : DB → Z.
Variable pwd_hash : string → string → string.
Variable pwd_verify : string → string → bool.
Variable jwt_encode : gmap string string → string.
(** [ACCESS_TOKEN_EXPIRE_MINUTES], read from the environment at import. *)
Variable ACCESS_TOKEN_EXPIRE_MINUTES : Z.

(** [POST /auth/signup]; [salt] is the salt the password context draws. *)
Definition signup (payload : schemas.UserCreate.t) (salt : string)
    : M DB schemas.UserRead.t :=
  let* db := get in
  match auth_operation.get_user_by_email (schemas.UserCreate.email payload) db with
  | Some _ => raise (HTTPException 400 "Email already registered")
  | None =>
      let* user :=
        auth_operation.create_user users_id_seq
          (schemas.UserCreate.email payload)
          (auth.hash_password pwd_hash salt (schemas.UserCreate.password payload))
          (schemas.UserCreate.role payload) in
      ret (UserRead_of user)
  end.

(** [POST /auth/login]; [username] and [password] are the form's fields,
    [utcnow] the clock read by [create_access_token]. *)
Definition login (username password : string) (utcnow : Z)
    : M DB schemas.Token.t :=
  let* db := get in
  match auth.authenticate_user pwd_verify username password db with
  | None =>
      match auth_operation.get_user_by_email username db with
      | None => raise (HTTPException 404 "User not found")
      | Some _ => raise (HTTPException 401 "Incorrect password")
      end
  | Some user =>
      let token :=
        auth.create_access_token jwt_encode {["sub" := User.email user]}
          ACCESS_TOKEN_EXPIRE_MINUTES utcnow in
      ret (schemas.Token.mk token "bearer")
  end.

End Routes.
End auth_router.

(** ** Vocabulary for the properties below *)

Section Vocabulary.
Import websocket_manager.

(** The calls [broadcast] makes when it reaches every socket of [l]. *)
Definition sends (message : string) (l : list WebSocket) : list call :=
  map (λ ws, SendText ws message) l.

(** How often [ws] is registered in [l]. *)
Definition occurrences (ws : WebSocket) (l : list WebSocket) : nat :=
  length (filter (λ x, x = ws) l).

(** How often [c] was made among [calls]. *)
Definition made (c : call) (calls : list call) : nat :=
  length (filter (λ x, x = c) calls).

(** The calls made on sockets between two states of the manager. *)
Definition since (before after : ConnectionManager) : list call :=
  drop (length (wire before)) (wire after).

(** Every send of [message] along [l] returns, the calls in [history] having
    been made before. *)
Definition deliverable (transport : list call → call → option exn)
    (history : list call) (message : string) (l : list WebSocket) : Prop :=
  ∀ i ws, l !! i = Some ws →
    transport (history ++ sends message (take i l)) (SendText ws message) = None.

(** A socket library on which no call ever raises, as the [DummyWebSocket]
    of tests/test_ticket.py. *)
Definition quiet : list call → call → option exn := λ _ _, None.

(** A socket library on which every send to [dead] raises. *)
Definition closed (dead : WebSocket) : list call → call → option exn :=
  λ _ c, match c with
         | SendText ws _ => if decide (ws = dead) then Some RuntimeError else None
         | _ => None
         end.

(** A socket library on which every [accept] raises [e]. *)
Definition refusing (e : exn) : list call → call → option exn :=
  λ _ c, match c with
         | Accept _ => Some e
         | _ => None
         end.

(** A frame that [receive_text] can read, and a client that sends no
    other. *)
Definition is_text (f : websocket_router.frame) : bool :=
  match f with
  | websocket_router.Text _ => true
  | websocket_router.Bytes _ => false
  end.

Definition text_only (inbox : list websocket_router.frame) : bool :=
  forallb is_text inbox.

(** The loop of [broadcast], socket by socket. *)
Definition send_each (transport : list call → call → option exn)
    (message : string) (l : list WebSocket) : M ConnectionManager unit :=
  for_each l (λ ws, ws_call transport (SendText ws message)).

(** Ticket 1 with the sockets 1, 2 and 3 subscribed, in that order. *)
Definition three_sockets : ConnectionManager := mk {[1 := [1; 2; 3]%nat]} [].

(** The manager after socket 7 connected to ticket 1. *)
Definition socket_7_subscribed : ConnectionManager :=
  (connect quiet 1 7%nat init).2.

(** Sockets 1 and 2 subscribed to ticket 10, socket 3 to ticket 20. *)
Definition two_rooms : ConnectionManager :=
  mk {[10 := [1; 2]%nat; 20 := [3%nat]]} [].

(** A store with one agent (id 1), one user (id 2) and the user's ticket
    (id 1), and the same store after the agent replied twice, a tick apart. *)
Definition store_one_ticket : database.DB :=
  database.mk
    [models.User.mk 1 "agent@example.com" "x" schemas.agent;
     models.User.mk 2 "user@example.com" "y" schemas.user]
    {[1 := models.Ticket.mk 1 "Printer" None schemas.open 0 2]}
    [] 2 1 10 true (2 ^ 31).

Definition store_two_replies : database.DB :=
  (ticket_operations.add_reply 1 "second" 1
     (database.tick (ticket_operations.add_reply 1 "first" 1 store_one_ticket).2)).2.

End Vocabulary.

(** ** Vocabulary for histories of the registry and of the store *)

Section Histories.
Import models database websocket_manager.
Variable transport : list call → call → option exn.
Variable users_id_seq : DB → Z.

(** [ws] was accepted: among [calls] there is an [accept] on it that
    returned. *)
Definition accepted (calls : list call) (ws : WebSocket) : Prop :=
  ∃ before after,
    calls = before ++ Accept ws :: after ∧ transport before (Accept ws) = None.

(** One use of the manager: a method call, or a whole session of the
    socket endpoint. *)
Inductive registry_step : ConnectionManager → ConnectionManager → Prop :=
  | step_connect ticket_id ws self :
      registry_step self (connect transport ticket_id ws self).2
  | step_disconnect ticket_id ws self :
      registry_step self (disconnect ticket_id ws self)
  | step_broadcast ticket_id message self :
      registry_step self (broadcast transport ticket_id message self).2
  | step_session ticket_id ws query_params inbox self :
      registry_step self
        (websocket_router.ticket_ws transport ticket_id ws query_params inbox self).2.

(** A store with no row yet, on either engine of the repository:
    PostgreSQL, which enforces foreign keys, or SQLite, which does not. *)
Definition empty_store (foreign_keys : bool) (now : Z) : DB :=
  database.mk [] ∅ [] 1 1 now foreign_keys
    (if foreign_keys then 2 ^ 31 else 2 ^ 63).

(** One use of the store: an operation of auth_operation.py or of
    ticket_operations.py ([change_ticket_status] on a ticket loaded from the
    store, as the router calls it), or time passing. *)
Inductive store_step : DB → DB → Prop :=
  | step_create_user email hashed_password role db :
      store_step db
        (auth_operation.create_user users_id_seq email hashed_password role db).2
  | step_create_ticket title description created_by db :
      store_step db (ticket_operations.create_ticket title description created_by db).2
  | step_add_reply ticket_id message replied_by db :
      store_step db (ticket_operations.add_reply ticket_id message replied_by db).2
  | step_change_status ticket status db :
      tickets db !! Ticket.id ticket = Some ticket →
      store_step db (ticket_operations.change_ticket_status ticket status db).2
  | step_tick db :
      store_step db (tick db).

(** What a consistent store satisfies: tickets are keyed by their id, ids
    lie below their sequences, reply ids, user ids and emails do not repeat,
    every reply belongs to a ticket, and, where foreign keys are enforced,
    owners and repliers are users. *)
Record store_ok (db : DB) : Prop := mk_store_ok
  { tickets_keyed : ∀ k t, tickets db !! k = Some t → Ticket.id t = k;
    tickets_below_seq : ∀ k t, tickets db !! k = Some t → k < tickets_id_seq db;
    replies_below_seq : ∀ r, r ∈ replies db → Reply.id r < replies_id_seq db;
    replies_distinct : NoDup (Reply.id <$> replies db);
    replies_belong : ∀ r, r ∈ replies db → is_Some (tickets db !! Reply.ticket_id r);
    users_distinct : NoDup (User.id <$> users db);
    emails_distinct : NoDup (User.email <$> users db);
    owners_known : foreign_keys db = true → ∀ k t,
      tickets db !! k = Some t → is_Some (user_by_id db (Ticket.created_by t));
    repliers_known : foreign_keys db = true → ∀ r,
      r ∈ replies db → is_Some (user_by_id db (Reply.replied_by r)) }.

(** The columns of a ticket that no operation writes after the insert. *)
Definition same_ticket (t t' : Ticket.t) : Prop :=
  Ticket.id t' = Ticket.id t
  ∧ Ticket.title t' = Ticket.title t
  ∧ Ticket.description t' = Ticket.description t
  ∧ Ticket.created_at t' = Ticket.created_at t
  ∧ Ticket.created_by t' = Ticket.created_by t.

(** [db'] still has every row of [db]: users and replies as they were and in
    place, tickets up to their status. *)
Definition keeps (db db' : DB) : Prop :=
  users db `prefix_of` users db'
  ∧ replies db `prefix_of` replies db'
  ∧ ∀ k t, tickets db !! k = Some t →
      ∃ t', tickets db' !! k = Some t' ∧ same_ticket t t'.

End Histories.


(** Stand-ins for the libraries, for the examples: a password "hash" that
    is the password, a token that is the subject itself, and a sequence
    that counts the rows. *)
Definition toy_hash (salt password : string) : string := password.




Definition toy_seq (db : database.DB) : Z :=
  Z.of_nat (length (database.users db)) + 1.

(** An empty store after an agent signed up and filed nothing, then after a
    ticket was created in the agent's name. *)
Definition store_with_agent : database.DB :=
  (auth_operation.create_user toy_seq "agent@example.com" "x" schemas.agent
     (empty_store true 0)).2.

Definition store_with_ticket : database.DB :=
  (ticket_operations.create_ticket "Printer" None 1 store_with_agent).2.

(** The agent and the owner of [store_one_ticket], and a request state over
    that store with the sockets 1, 2 and 3 on ticket 1. *)
Definition the_agent : models.User.t :=
  models.User.mk 1 "agent@example.com" "x" schemas.agent.

Definition the_owner : models.User.t :=
  models.User.mk 2 "user@example.com" "y" schemas.user.

Definition the_app : ticket_router.App :=
  ticket_router.mk store_one_ticket three_sockets [].

(** * Properties *)

(** ** The connection registry *)

Section Registry.
Import websocket_manager.
Variable transport : list call → call → option exn.
Local Abbreviation deliverable := (deliverable transport).
Local Abbreviation send_each := (send_each transport).

Lemma sends_app message l1 l2 :
  sends message (l1 ++ l2) = sends message l1 ++ sends message l2.
Proof. apply map_app. Qed.

Lemma elem_of_sends ws message message' l :
  SendText ws message ∈ sends message' l ↔ ws ∈ l ∧ message = message'.
Proof.
  unfold sends. rewrite list_elem_of_fmap. split.
  - intros (x & Heq & Hx). by inversion Heq; subst.
  - intros [Hx ->]. by exists ws.
Qed.

Lemma made_sends ws message l :
  made (SendText ws message) (sends message l) = occurrences ws l.
Proof.
  unfold made, occurrences.
  induction l as [|x l IH]; [done|].
  cbn [sends map]. rewrite !filter_cons.
  destruct (decide (x = ws)) as [->|Hne].
  - rewrite decide_True by done. cbn. by f_equal.
  - rewrite decide_False by congruence. exact IH.
Qed.

Lemma deliverable_nil history message : deliverable history message [].
Proof. intros i ws Hi. by rewrite lookup_nil in Hi. Qed.

Lemma deliverable_cons history message ws l :
  deliverable history message (ws :: l) ↔
  transport history (SendText ws message) = None
  ∧ deliverable (history ++ [SendText ws message]) message l.
Proof.
  split.
  - intros H. split.
    + specialize (H 0%nat ws eq_refl). by rewrite app_nil_r in H.
    + intros i x Hi. specialize (H (S i) x Hi).
      cbn in H. by rewrite <- app_assoc.
  - intros [H0 H] [|i] x Hi.
    + inversion Hi; subst. by rewrite app_nil_r.
    + specialize (H i x Hi). cbn. by rewrite <- app_assoc in H.
Qed.

Lemma deliverable_app history message l1 l2 :
  deliverable history message (l1 ++ l2) ↔
  deliverable history message l1
  ∧ deliverable (history ++ sends message l1) message l2.
Proof.
  revert history. induction l1 as [|x l1 IH]; intros history.
  - cbn. rewrite app_nil_r. split; [|tauto].
    intros H. split; [apply deliverable_nil|done].
  - cbn [app]. rewrite !deliverable_cons, IH.
    cbn [sends map]. fold (sends message l1).
    rewrite <- app_assoc. cbn [app]. tauto.
Qed.

Lemma send_each_cons message ws l self :
  send_each message (ws :: l) self =
  match transport (wire self) (SendText ws message) with
  | None => send_each message l (mk (active self) (wire self ++ [SendText ws message]))
  | Some e => (Raise e, mk (active self) (wire self ++ [SendText ws message]))
  end.
Proof.
  unfold send_each. cbn [for_each]. unfold bind at 1, ws_call at 1.
  by destruct (transport _ _).
Qed.

Lemma send_each_ok message l self :
  deliverable (wire self) message l →
  send_each message l self
  = (Ok tt, mk (active self) (wire self ++ sends message l)).
Proof.
  revert self. induction l as [|ws l IH]; intros [a w] H.
  - cbn. by rewrite app_nil_r.
  - apply deliverable_cons in H as [H0 H].
    rewrite send_each_cons. cbn [wire active] in *. rewrite H0.
    rewrite IH by done. cbn. by rewrite <- app_assoc.
Qed.

Lemma send_each_raise message pre ws post e self :
  deliverable (wire self) message pre →
  transport (wire self ++ sends message pre) (SendText ws message) = Some e →
  send_each message (pre ++ ws :: post) self
  = (Raise e, mk (active self) (wire self ++ sends message (pre ++ [ws]))).
Proof.
  revert self. induction pre as [|x pre IH]; intros [a w] Hpre Hws.
  - cbn in Hws. rewrite app_nil_r in Hws. cbn [app].
    rewrite send_each_cons. cbn [wire active]. by rewrite Hws.
  - apply deliverable_cons in Hpre as [H0 Hpre]. cbn [app].
    rewrite send_each_cons. cbn [wire active] in *. rewrite H0.
    rewrite IH; cbn [wire active].
    + by rewrite <- app_assoc.
    + done.
    + by rewrite <- app_assoc.
Qed.

(** Whatever the sockets do, the loop reaches a prefix of [l], and all of
    [l] when it returns. *)
Lemma send_each_prefix message l self :
  ∃ k, active (send_each message l self).2 = active self
     ∧ wire (send_each message l self).2 = wire self ++ sends message (take k l)
     ∧ ((send_each message l self).1 = Ok tt → take k l = l).
Proof.
  revert self. induction l as [|ws l IH]; intros [a w].
  - exists 0%nat. cbn. by rewrite app_nil_r.
  - rewrite send_each_cons. cbn [wire active].
    destruct (transport w (SendText ws message)) as [e|].
    + exists 1%nat. cbn. rewrite take_0. done.
    + destruct (IH (mk a (w ++ [SendText ws message]))) as (k & Ha & Hw & Hr).
      exists (S k). cbn [wire active] in *. rewrite Ha, Hw. cbn.
      rewrite <- app_assoc. split; [done|]. split; [done|].
      intros Hok. by rewrite Hr.
Qed.

Lemma broadcast_unfold ticket_id message self :
  broadcast transport ticket_id message self
  = send_each message (room ticket_id self) self.
Proof. done. Qed.

Lemma broadcast_active ticket_id message self :
  active (broadcast transport ticket_id message self).2 = active self.
Proof.
  rewrite broadcast_unfold.
  by destruct (send_each_prefix message (room ticket_id self) self) as (k & -> & _).
Qed.

Lemma connect_unfold ticket_id ws self :
  connect transport ticket_id ws self =
  match transport (wire self) (Accept ws) with
  | None =>
      (Ok tt, mk (<[ticket_id := room ticket_id self ++ [ws]]> (active self))
                 (wire self ++ [Accept ws]))
  | Some e => (Raise e, mk (active self) (wire self ++ [Accept ws]))
  end.
Proof.
  unfold connect, bind, ws_call, modify, room.
  by destruct (transport _ _).
Qed.

Lemma room_insert ticket_id l a w :
  room ticket_id (mk (<[ticket_id := l]> a) w) = l.
Proof. unfold room. cbn. by rewrite lookup_insert_eq. Qed.

Lemma room_insert_ne ticket_id ticket_id' l a w :
  ticket_id ≠ ticket_id' →
  room ticket_id' (mk (<[ticket_id := l]> a) w) = room ticket_id' (mk a w).
Proof. intros Hne. unfold room. cbn. by rewrite lookup_insert_ne. Qed.

Lemma connect_room_ok ticket_id ws self self' :
  connect transport ticket_id ws self = (Ok tt, self') →
  room ticket_id self' = room ticket_id self ++ [ws].
Proof.
  rewrite connect_unfold. destruct (transport _ _); [done|].
  intros [= <-]. apply room_insert.
Qed.


Lemma disconnect_room ticket_id ws self :
  room ticket_id (disconnect ticket_id ws self) = remove ws (room ticket_id self).
Proof.
  unfold disconnect, room. destruct self as [a w]. cbn.
  destruct (a !! ticket_id) as [l|] eqn:Hl; cbn; [|by rewrite Hl].
  destruct (decide (ws ∈ l)) as [Hin|Hnin]; cbn.
  - by rewrite lookup_insert_eq.
  - rewrite Hl. cbn. clear Hl. induction l as [|x l IH]; [done|].
    cbn. destruct (decide (x = ws)) as [->|]; [by destruct Hnin; left|].
    f_equal. apply IH. intros H. apply Hnin. by right.
Qed.

Lemma disconnect_room_other ticket_id ticket_id' ws self :
  ticket_id ≠ ticket_id' →
  room ticket_id' (disconnect ticket_id ws self) = room ticket_id' self.
Proof.
  intros Hne. unfold disconnect. destruct self as [a w]. cbn.
  destruct (a !! ticket_id) as [l|]; [|done].
  destruct (decide (ws ∈ l)); [|done]. by apply room_insert_ne.
Qed.

Lemma disconnect_wire ticket_id ws self :
  wire (disconnect ticket_id ws self) = wire self.
Proof.
  unfold disconnect. destruct (active self !! ticket_id) as [l|]; [|done].
  by destruct (decide (ws ∈ l)).
Qed.

Lemma remove_not_elem_of ws l : ws ∉ l → remove ws l = l.
Proof.
  induction l as [|x l IH]; [done|]. intros Hnin. cbn.
  destruct (decide (x = ws)) as [->|]; [by destruct Hnin; left|].
  f_equal. apply IH. intros H. apply Hnin. by right.
Qed.

Lemma remove_app_fresh ws l : ws ∉ l → remove ws (l ++ [ws]) = l.
Proof.
  induction l as [|x l IH]; intros Hnin; cbn.
  - by rewrite decide_True.
  - destruct (decide (x = ws)) as [->|]; [by destruct Hnin; left|].
    f_equal. apply IH. intros H. apply Hnin. by right.
Qed.

Lemma occurrences_remove ws l :
  ws ∈ l → S (occurrences ws (remove ws l)) = occurrences ws l.
Proof.
  unfold occurrences.
  induction l as [|x l IH]; [by intros ?%elem_of_nil|].
  intros Hin. cbn [remove]. destruct (decide (x = ws)) as [->|Hne].
  - rewrite filter_cons, decide_True by done. done.
  - rewrite !filter_cons, !decide_False by done. apply IH.
    apply elem_of_cons in Hin as [->|]; done.
Qed.

Lemma occurrences_snoc ws (l : list WebSocket) :
  occurrences ws (l ++ [ws]) = S (occurrences ws l).
Proof.
  unfold occurrences. rewrite filter_app, length_app.
  rewrite filter_cons, decide_True by done. cbn. lia.
Qed.

Lemma broadcast_since ticket_id message self :
  ∃ k, since self (broadcast transport ticket_id message self).2
       = sends message (take k (room ticket_id self))
     ∧ ((broadcast transport ticket_id message self).1 = Ok tt →
        take k (room ticket_id self) = room ticket_id self).
Proof.
  rewrite broadcast_unfold.
  destruct (send_each_prefix message (room ticket_id self) self) as (k & _ & Hw & Hr).
  exists k. unfold since. rewrite Hw. by rewrite drop_app_length.
Qed.

(** Whatever the sockets do, [broadcast] calls none outside the room. *)
Lemma broadcast_stays_in_room ticket_id message self ws message' :
  SendText ws message' ∈ since self (broadcast transport ticket_id message self).2 →
  ws ∈ room ticket_id self.
Proof.
  destruct (broadcast_since ticket_id message self) as (k & -> & _).
  intros [Hin _]%elem_of_sends. revert Hin. apply subseteq_take.
Qed.

Lemma broadcast_room ticket_id ticket_id' message self :
  room ticket_id' (broadcast transport ticket_id message self).2 = room ticket_id' self.
Proof. unfold room. by rewrite broadcast_active. Qed.


(** C4, amended. For a socket [c] that is not yet registered for ticket [t]:
    after [connect(t, c)] then [disconnect(t, c)], [c] is absent from the
    collection of [t], which is as it was before, and no [broadcast(t, m)]
    made afterward calls [c]. *)
Theorem connect_disconnect_fresh_absent ticket_id ws self :
  ws ∉ room ticket_id self →
  let self' := disconnect ticket_id ws (connect transport ticket_id ws self).2 in
  (ws ∉ room ticket_id self')
  ∧ room ticket_id self' = room ticket_id self
  ∧ ∀ message message',
      SendText ws message' ∉ since self' (broadcast transport ticket_id message self').2.
Proof.
  intros Hfresh self'.
  assert (Hroom : room ticket_id self' = room ticket_id self).
  { subst self'. rewrite disconnect_room, connect_unfold.
    destruct (transport _ _); cbn [snd].
    - unfold room at 1. cbn. by apply remove_not_elem_of.
    - rewrite room_insert. by apply remove_app_fresh. }
  split; [by rewrite Hroom|]. split; [done|].
  intros message message' Hin%broadcast_stays_in_room.
  by rewrite Hroom in Hin.
Qed.

(** C10. The registry keeps duplicates: two [connect(t, c)] that return
    leave [c] twice more in the collection of [t]; a [broadcast(t, m)] that
    returns has sent [m] to [c] once per occurrence; and one
    [disconnect(t, c)] takes a single occurrence away, so [c] stays
    registered. *)
Theorem connect_twice_registers_twice ticket_id ws self self1 self2 :
  connect transport ticket_id ws self = (Ok tt, self1) →
  connect transport ticket_id ws self1 = (Ok tt, self2) →
  room ticket_id self2 = room ticket_id self ++ [ws; ws]
  ∧ occurrences ws (room ticket_id self2)
    = (occurrences ws (room ticket_id self) + 2)%nat
  ∧ (∀ message self3,
       broadcast transport ticket_id message self2 = (Ok tt, self3) →
       made (SendText ws message) (since self2 self3)
       = occurrences ws (room ticket_id self2))
  ∧ occurrences ws (room ticket_id (disconnect ticket_id ws self2))
    = (occurrences ws (room ticket_id self) + 1)%nat
  ∧ ws ∈ room ticket_id (disconnect ticket_id ws self2).
Proof.
  intros H1%connect_room_ok H2%connect_room_ok.
  assert (Hroom : room ticket_id self2 = room ticket_id self ++ [ws; ws]).
  { rewrite H2, H1. by rewrite <- app_assoc. }
  assert (Hocc : occurrences ws (room ticket_id self2)
                 = (occurrences ws (room ticket_id self) + 2)%nat).
  { rewrite H2, H1, !occurrences_snoc. lia. }
  assert (Hin : ws ∈ room ticket_id self2).
  { rewrite Hroom. apply elem_of_app. right. by left. }
  pose proof (occurrences_remove ws _ Hin) as Hrem.
  split; [done|]. split; [done|]. split; [|split].
  - intros message self3 Hb.
    destruct (broadcast_since ticket_id message self2) as (k & Hs & Hk).
    rewrite Hb in Hs, Hk. cbn [fst snd] in Hs, Hk.
    rewrite Hs, Hk by done. apply made_sends.
  - rewrite disconnect_room. lia.
  - rewrite disconnect_room.
    assert (0 < occurrences ws (remove ws (room ticket_id self2)))%nat as Hpos by lia.
    unfold occurrences in Hpos.
    destruct (filter (λ x, x = ws) (remove ws (room ticket_id self2))) as [|y l] eqn:Hf;
      [cbn in Hpos; lia|].
    assert (y ∈ filter (λ x, x = ws) (remove ws (room ticket_id self2))) as Hy
      by (rewrite Hf; by left).
    apply list_elem_of_filter in Hy as [-> Hy]. done.
Qed.

End Registry.

(** ** The ticket workflow store *)

Section Store.
Import models database ticket_operations.
Variable row_order : list Reply.t → list Reply.t.

Lemma references_user_known db user_id :
  is_Some (user_by_id db user_id) → references_user db user_id = true.
Proof.
  intros H. unfold references_user. rewrite (bool_decide_eq_true_2 _ H).
  by destruct (foreign_keys db).
Qed.

Lemma binds_user_known db user_id :
  is_Some (user_by_id db user_id) → binds_user db user_id = true.
Proof. intros H. unfold binds_user. by rewrite (bool_decide_eq_true_2 _ H). Qed.

Lemma get_ticket_Some ticket_id db t :
  tickets db !! ticket_id = Some t →
  get_ticket row_order ticket_id db
  = Ok (Some (mk_loaded t
                (row_order (filter (λ r, Reply.ticket_id r = ticket_id) (replies db)))
                (user_by_id db (Ticket.created_by t)))).
Proof. intros H. unfold get_ticket. by rewrite H. Qed.

Lemma get_ticket_None ticket_id db :
  tickets db !! ticket_id = None →
  get_ticket row_order ticket_id db
  = if bindable db ticket_id then Ok None else Raise DriverError.
Proof. intros H. unfold get_ticket. by rewrite H. Qed.

Lemma add_reply_known ticket_id message replied_by db t :
  tickets db !! ticket_id = Some t →
  is_Some (user_by_id db replied_by) →
  add_reply ticket_id message replied_by db
  = (Ok (Some (Reply.mk (replies_id_seq db) ticket_id message (now db) replied_by)),
     mk (users db) (tickets db)
        (replies db ++ [Reply.mk (replies_id_seq db) ticket_id message (now db) replied_by])
        (tickets_id_seq db) (replies_id_seq db + 1) (now db) (foreign_keys db) (integer_bound db)).
Proof.
  intros Ht Hu. unfold add_reply.
  by rewrite Ht, (binds_user_known _ _ Hu), (references_user_known _ _ Hu).
Qed.


(** C9. For an owner who is a user of the store, [create_ticket] returns a
    ticket, now a row of the store, whose status is [open], whose
    [created_by] is the owner, and whose [created_at] is the server's
    clock; title and description are the ones given. *)
Theorem create_ticket_open_and_owned title description created_by db :
  is_Some (user_by_id db created_by) →
  ∃ ticket db',
    create_ticket title description created_by db = (Ok ticket, db')
    ∧ Ticket.status ticket = schemas.open
    ∧ Ticket.created_by ticket = created_by
    ∧ Ticket.created_at ticket = now db
    ∧ Ticket.title ticket = title
    ∧ Ticket.description ticket = description
    ∧ tickets db' !! Ticket.id ticket = Some ticket.
Proof.
  intros Hu. unfold create_ticket.
  rewrite (binds_user_known _ _ Hu), (references_user_known _ _ Hu).
  eexists _, _. split; [done|]. cbn. by rewrite lookup_insert_eq.
Qed.

Lemma change_ticket_status_stored ticket ticket_status db :
  tickets db !! Ticket.id ticket = Some ticket →
  change_ticket_status ticket ticket_status db
  = (Ok (Ticket.mk (Ticket.id ticket) (Ticket.title ticket) (Ticket.description ticket)
           ticket_status (Ticket.created_at ticket) (Ticket.created_by ticket)),
     mk (users db)
        (<[Ticket.id ticket :=
             Ticket.mk (Ticket.id ticket) (Ticket.title ticket)
               (Ticket.description ticket) ticket_status (Ticket.created_at ticket)
               (Ticket.created_by ticket)]> (tickets db))
        (replies db) (tickets_id_seq db) (replies_id_seq db) (now db)
        (foreign_keys db) (integer_bound db)).
Proof. intros H. unfold change_ticket_status. by rewrite H. Qed.

(** A ticket that is no row of the store is not persistent: nothing is
    written and the refresh raises. *)
Lemma change_ticket_status_not_stored ticket ticket_status db :
  tickets db !! Ticket.id ticket = None →
  change_ticket_status ticket ticket_status db = (Raise InvalidRequestError, db).
Proof. intros H. unfold change_ticket_status. by rewrite H. Qed.

(** C7. On a stored ticket, [change_ticket_status] writes the status it is
    given, whatever the current one: all nine pairs go through, and the
    other columns and the other tickets are kept. Doing it again changes
    nothing more; and when the new status is the one the ticket already
    has, the store and the ticket come back as they were. *)
Theorem change_ticket_status_overwrites ticket ticket_status db :
  tickets db !! Ticket.id ticket = Some ticket →
  ∃ ticket' db',
    change_ticket_status ticket ticket_status db = (Ok ticket', db')
    ∧ Ticket.status ticket' = ticket_status
    ∧ same_ticket ticket ticket'
    ∧ tickets db' !! Ticket.id ticket = Some ticket'
    ∧ (∀ i, i ≠ Ticket.id ticket → tickets db' !! i = tickets db !! i)
    ∧ change_ticket_status ticket' ticket_status db' = (Ok ticket', db')
    ∧ (Ticket.status ticket = ticket_status → ticket' = ticket ∧ db' = db).
Proof.
  intros Ht. eexists _, _. split; [by apply change_ticket_status_stored|]. cbn.
  split; [done|]. split; [by repeat split|]. split; [by rewrite lookup_insert_eq|].
  split; [by intros i Hi; rewrite lookup_insert_ne|].
  split.
  - unfold change_ticket_status. cbn. rewrite lookup_insert_eq. cbn.
    by rewrite insert_insert_eq.
  - intros <-. split; [by destruct ticket|].
    destruct db, ticket. cbn in *. f_equal. by apply insert_id.
Qed.

Lemma get_ticket_with_replies_Some ticket_id db t :
  tickets db !! ticket_id = Some t →
  get_ticket_with_replies row_order ticket_id db
  = Ok (Some (mk_loaded t
                (row_order (filter (λ r, Reply.ticket_id r = ticket_id) (replies db)))
                (user_by_id db (Ticket.created_by t)),
              row_order (filter (λ r, Reply.ticket_id r = ticket_id) (replies db)))).
Proof.
  intros H. unfold get_ticket_with_replies. by rewrite (get_ticket_Some _ _ t).
Qed.

(** C8, amended. For an existing ticket, the replies returned with it are
    the reply rows of that ticket, each as often as it is stored, in the
    order the engine yields them; they are in insertion order when the
    engine keeps the rows in that order. No ordering is asked of the
    engine. *)
Theorem replies_in_engine_order ticket_id db t :
  (∀ l, row_order l ≡ₚ l) →
  tickets db !! ticket_id = Some t →
  ∃ ticket replies',
    get_ticket_with_replies row_order ticket_id db = Ok (Some (ticket, replies'))
    ∧ ticket_operations.ticket ticket = t
    ∧ replies' = row_order (filter (λ r, Reply.ticket_id r = ticket_id) (replies db))
    ∧ replies' ≡ₚ filter (λ r, Reply.ticket_id r = ticket_id) (replies db)
    ∧ (∀ r, r ∈ replies' ↔ r ∈ replies db ∧ Reply.ticket_id r = ticket_id)
    ∧ ((∀ l, row_order l = l) →
       replies' = filter (λ r, Reply.ticket_id r = ticket_id) (replies db)).
Proof.
  intros Hperm Ht. eexists _, _.
  split; [by apply get_ticket_with_replies_Some|].
  split; [done|]. split; [done|]. split; [by apply Hperm|]. split.
  - intros r. rewrite (Hperm _), list_elem_of_filter. tauto.
  - intros Hid. by rewrite Hid.
Qed.

End Store.

Section StoreExamples.
Import models database ticket_operations.

(** C8 as stated fails on an engine that yields the newest row first: the
    two replies of [store_two_replies], inserted as "first" then "second"
    at clock 10 then 11, come back as "second" then "first". *)
Lemma replies_newest_first :
  get_ticket_with_replies reverse 1 store_two_replies
  = Ok (Some (mk_loaded (Ticket.mk 1 "Printer" None schemas.open 0 2)
                [Reply.mk 2 1 "second" 11 1; Reply.mk 1 1 "first" 10 1]
                (Some (User.mk 2 "user@example.com" "y" schemas.user)),
              [Reply.mk 2 1 "second" 11 1; Reply.mk 1 1 "first" 10 1]))
  ∧ replies store_two_replies
    = [Reply.mk 1 1 "first" 10 1; Reply.mk 2 1 "second" 11 1]
  ∧ ¬ Sorted Z.le (map Reply.created_at
                     [Reply.mk 2 1 "second" 11 1; Reply.mk 1 1 "first" 10 1]).
Proof.
  split; [by vm_compute|]. split; [by vm_compute|].
  intros H. inversion H as [|? ? _ Hd]; subst. inversion Hd; subst. lia.
Qed.

Lemma replies_in_engine_order_witness :
  ∃ ticket replies',
    get_ticket_with_replies (λ l, l) 1 store_two_replies = Ok (Some (ticket, replies'))
    ∧ ticket_operations.ticket ticket
      = Ticket.mk 1 "Printer" None schemas.open 0 2
    ∧ replies' = filter (λ r, Reply.ticket_id r = 1) (replies store_two_replies)
    ∧ replies' ≡ₚ filter (λ r, Reply.ticket_id r = 1) (replies store_two_replies)
    ∧ (∀ r, r ∈ replies' ↔ r ∈ replies store_two_replies ∧ Reply.ticket_id r = 1)
    ∧ ((∀ l : list Reply.t, l = l) →
       replies' = filter (λ r, Reply.ticket_id r = 1) (replies store_two_replies)).
Proof.
  apply (replies_in_engine_order (λ l, l) 1 store_two_replies).
  - done.
  - by vm_compute.
Defined.

End StoreExamples.

(** ** The routers *)

Section Routers.
Import models database websocket_manager ticket_router.
Variable transport : list call → call → option exn.
Variable row_order : list Reply.t → list Reply.t.
Variable format_status : schemas.TicketStatus → string.

Lemma get_ticket_detail_missing ticket_id current_user app :
  tickets (db app) !! ticket_id = None →
  get_ticket_detail row_order ticket_id current_user app
  = (if bindable (db app) ticket_id
     then Raise (HTTPException 404 "Ticket not found")
     else Raise DriverError, app).
Proof.
  intros H. unfold get_ticket_detail, bind, reads.
  unfold ticket_operations.get_ticket_with_replies.
  rewrite (get_ticket_None _ _ _ H). by destruct (bindable (db app) ticket_id).
Qed.

(** C5. For an identity and an existing ticket, the detail route returns
    the detail exactly when the identity is an agent or the ticket's owner;
    any other identity gets 403, and never the 404 of a missing ticket.
    The route changes nothing. *)
Theorem detail_allowed_iff_agent_or_owner ticket_id current_user t app :
  tickets (db app) !! ticket_id = Some t →
  let out := get_ticket_detail row_order ticket_id (Some current_user) app in
  let allowed :=
    User.role current_user = schemas.agent
    ∨ User.id current_user = Ticket.created_by t in
  out.2 = app
  ∧ ((∃ detail, out.1 = Ok detail) ↔ allowed)
  ∧ (allowed →
     out.1 = Ok (schemas.TicketDetail.mk (TicketRead_of t)
                   (map ReplyRead_of
                      (row_order (filter (λ r, Reply.ticket_id r = ticket_id)
                                    (replies (db app)))))))
  ∧ (¬ allowed → out.1 = Raise (HTTPException 403 "Not allowed"))
  ∧ (∀ detail, out.1 ≠ Raise (HTTPException 404 detail)).
Proof.
  intros Ht out allowed. subst out allowed.
  unfold get_ticket_detail, bind, reads.
  rewrite (get_ticket_with_replies_Some _ _ _ _ Ht). cbn [ticket_operations.ticket].
  destruct current_user as [uid email pw role]. cbn [User.role User.id].
  destruct role; cbn [bool_decide decide_rel andb].
  - destruct (decide (Ticket.created_by t = uid)) as [Heq|Hne].
    + rewrite bool_decide_eq_true_2 by done.
      rewrite bool_decide_eq_false_2 by (intros H; by apply H).
      cbn. repeat split; try done; eauto. intros H. exfalso. apply H. by right.
    + rewrite bool_decide_eq_true_2 by done.
      rewrite bool_decide_eq_true_2 by done.
      cbn. repeat split; try done.
      * intros [d Hd]. done.
      * intros [H|H]; [done|]. by destruct Hne.
      * intros [H|H]; [done|]. by destruct Hne.
  - rewrite bool_decide_eq_false_2 by done.
    cbn. repeat split; try done; eauto. intros H. exfalso. apply H. by left.
Qed.

(** Runs a route up to the lookup of its ticket: the agent gate passes and
    [get_ticket] finds [t]. *)
Ltac pass_agent_gate Hrole Ht :=
  unfold bind at 1, depends, dependencies.require_agent;
  rewrite Hrole; cbn [decide_rel];
  rewrite decide_False by (let H := fresh in intros H; by apply H);
  unfold bind at 1, reads; rewrite (get_ticket_Some _ _ _ _ Ht).

Lemma add_reply_broadcast_raises ticket_id message agent t app e manager' :
  User.role agent = schemas.agent →
  tickets (db app) !! ticket_id = Some t →
  is_Some (user_by_id (db app) (User.id agent)) →
  broadcast transport ticket_id (reply_notice agent message) (manager app)
  = (Raise e, manager') →
  add_reply transport row_order ticket_id message (Some agent) app
  = (Raise e,
     mk (ticket_operations.add_reply ticket_id message (User.id agent) (db app)).2
        manager' (celery app)).
Proof.
  intros Hrole Ht Hu Hb.
  unfold add_reply. pass_agent_gate Hrole Ht.
  unfold bind at 1, with_db at 1.
  rewrite (add_reply_known _ _ _ _ _ Ht Hu). cbn [db manager celery].
  unfold bind at 1, with_manager at 1. cbn [db manager celery]. by rewrite Hb.
Qed.

Lemma update_status_broadcast_raises ticket_id status agent t app e manager' :
  User.role agent = schemas.agent →
  tickets (db app) !! ticket_id = Some t →
  Ticket.id t = ticket_id →
  broadcast transport ticket_id
    ("Status changed to " +:+ format_status status) (manager app)
  = (Raise e, manager') →
  update_status transport row_order format_status ticket_id status (Some agent) app
  = (Raise e,
     mk (ticket_operations.change_ticket_status t status (db app)).2
        manager' (celery app)).
Proof.
  intros Hrole Ht Hid Hb. subst ticket_id.
  unfold update_status. pass_agent_gate Hrole Ht.
  unfold bind at 1, with_db at 1. cbn [ticket_operations.ticket].
  rewrite (change_ticket_status_stored _ _ _ Ht).
  cbn [db manager celery Ticket.status].
  unfold bind at 1, with_manager at 1. cbn [db manager celery]. by rewrite Hb.
Qed.

End Routers.

(** ** A send that raises during [broadcast] *)

Section DeliveryFailure.
Import models database websocket_manager ticket_router.
Variable transport : list call → call → option exn.
Variable row_order : list Reply.t → list Reply.t.
Variable format_status : schemas.TicketStatus → string.

(** C2, amended. If, during [broadcast(t, m)], the send to a registered
    socket raises [e] while the sends to the sockets registered before it
    returned, then [m] has gone to those earlier sockets and to the failing
    one only (no socket registered after it is called), nothing is
    disconnected (the registry is as it was), and [e] comes out of
    [broadcast] and out of the request that triggered it: the reply route
    and the status route both end in [e], with the reply row, or the new
    status, already committed and no job queued. *)
Theorem broadcast_stops_at_first_failure ticket_id message self pre ws post e :
  room ticket_id self = pre ++ ws :: post →
  deliverable transport (wire self) message pre →
  transport (wire self ++ sends message pre) (SendText ws message) = Some e →
  let self' := websocket_manager.mk (active self)
                 (wire self ++ sends message (pre ++ [ws])) in
  broadcast transport ticket_id message self = (Raise e, self')
  ∧ room ticket_id self' = room ticket_id self
  ∧ (∀ app agent text t,
       manager app = self →
       message = reply_notice agent text →
       User.role agent = schemas.agent →
       tickets (db app) !! ticket_id = Some t →
       is_Some (user_by_id (db app) (User.id agent)) →
       ∃ db',
         add_reply transport row_order ticket_id text (Some agent) app
         = (Raise e, mk db' self' (celery app))
         ∧ replies db'
           = replies (db app)
             ++ [Reply.mk (replies_id_seq (db app)) ticket_id text
                   (now (db app)) (User.id agent)])
  ∧ (∀ app agent status t,
       manager app = self →
       message = "Status changed to " +:+ format_status status →
       User.role agent = schemas.agent →
       tickets (db app) !! ticket_id = Some t →
       Ticket.id t = ticket_id →
       ∃ db',
         update_status transport row_order format_status ticket_id status
           (Some agent) app
         = (Raise e, mk db' self' (celery app))
         ∧ Ticket.status <$> (tickets db' !! ticket_id) = Some status).
Proof.
  intros Hroom Hpre Hws self'.
  assert (Hb : broadcast transport ticket_id message self = (Raise e, self')).
  { rewrite broadcast_unfold, Hroom. by apply send_each_raise. }
  split; [done|]. split; [done|]. split.
  - intros app agent text t <- -> Hrole Ht Hu.
    eexists. split.
    + by apply (add_reply_broadcast_raises _ _ _ _ _ t).
    + by rewrite (add_reply_known _ _ _ _ t Ht Hu).
  - intros app agent status t <- -> Hrole Ht Hid.
    eexists. split.
    + by apply (update_status_broadcast_raises _ _ _ _ _ _ t).
    + subst ticket_id. rewrite (change_ticket_status_stored _ _ _ Ht).
      cbn. by rewrite lookup_insert_eq.
Qed.

End DeliveryFailure.

(** ** The socket endpoint *)

Section Endpoint.
Import websocket_manager websocket_router.
Variable transport : list call → call → option exn.

(** The receive loop never returns: it ends in [WebSocketDisconnect] when
    the client leaves, or in [KeyError] at the first binary frame. *)
Lemma receive_loop_raises inbox self :
  receive_loop inbox self
  = (Raise (if text_only inbox then WebSocketDisconnect else KeyError), self).
Proof. induction inbox as [|[data|data] inbox IH]; [done| |done]. exact IH. Qed.

(** Without a token, or with an empty one, the socket is closed with code
    4401: it is neither accepted nor registered. *)
Lemma ticket_ws_token_absent ticket_id websocket query_params inbox self :
  truthy (query_params !! "token") = false →
  (ticket_ws transport ticket_id websocket query_params inbox self).2
  = mk (active self) (wire self ++ [Close websocket 4401]).
Proof.
  intros H. unfold ticket_ws. rewrite H. cbn [negb].
  unfold ws_call. by destruct (transport _ _).
Qed.

(** With any non-empty token the first thing done is to accept the socket,
    and nothing else is asked of it: what the token is plays no part. *)
Lemma ticket_ws_token_present ticket_id websocket query_params inbox self :
  truthy (query_params !! "token") = true →
  wire (ticket_ws transport ticket_id websocket query_params inbox self).2
  = wire self ++ [Accept websocket].
Proof.
  intros H. unfold ticket_ws. rewrite H. cbn [negb].
  unfold try_except, bind at 1. rewrite connect_unfold.
  destruct (transport (wire self) (Accept websocket)) as [e|].
  - destruct e; try done; cbn; by rewrite disconnect_wire.
  - rewrite receive_loop_raises.
    destruct (text_only inbox); cbn; [by rewrite disconnect_wire|done].
Qed.

End Endpoint.

(** ** The properties at concrete inputs *)

Section Examples.
Import models database websocket_manager.

Lemma deliverable_quiet history message l : deliverable quiet history message l.
Proof. by intros i ws Hi. Qed.

(** C1 fails on the code. A token that the credential service does not
    resolve still gets the socket accepted and registered: [ticket_ws]
    tests that the parameter is there and never has it resolved. Here the
    token resolves to no user, and the session (one frame, then the client
    leaves) ends with the socket accepted, never closed, and an entry made
    for the ticket. *)
Theorem ticket_ws_accepts_unresolved_token :
  auth.validate_websocket_token (λ _, None) "garbage" store_one_ticket = None
  ∧ connect quiet 1 7%nat init = (Ok tt, mk {[1 := [7%nat]]} [Accept 7%nat])
  ∧ websocket_router.ticket_ws quiet 1 7%nat {["token" := "garbage"]}
      [websocket_router.Text "hi"] init
    = (Ok tt, mk {[1 := []]} [Accept 7%nat])
  ∧ websocket_router.ticket_ws quiet 1 7%nat ∅ [websocket_router.Text "hi"] init
    = (Ok tt, mk ∅ [Close 7%nat 4401]).
Proof. repeat split; by vm_compute. Qed.

(** C2 as stated fails: with sockets 1, 2, 3 subscribed to ticket 1 and
    socket 2 closed, [broadcast] raises after calling 1 and 2, never calls
    3, and leaves 2 registered; the reply route that triggered it ends in
    the same error, its reply row already stored. *)
Lemma broadcast_aborted_by_closed_socket :
  broadcast (closed 2%nat) 1 "m" three_sockets
  = (Raise RuntimeError, mk {[1 := [1; 2; 3]%nat]} [SendText 1%nat "m"; SendText 2%nat "m"])
  ∧ (ticket_router.add_reply (closed 2%nat) (λ l, l) 1 "hello"
       (Some (User.mk 1 "agent@example.com" "x" schemas.agent))
       (ticket_router.mk store_one_ticket three_sockets [])).1
    = Raise RuntimeError
  ∧ replies (ticket_router.db
       (ticket_router.add_reply (closed 2%nat) (λ l, l) 1 "hello"
          (Some (User.mk 1 "agent@example.com" "x" schemas.agent))
          (ticket_router.mk store_one_ticket three_sockets [])).2)
    = [Reply.mk 1 1 "hello" 10 1].
Proof. repeat split; by vm_compute. Qed.

Lemma broadcast_stops_at_first_failure_witness :
  broadcast (closed 2%nat) 1 "m" three_sockets
  = (Raise RuntimeError, mk {[1 := [1; 2; 3]%nat]} [SendText 1%nat "m"; SendText 2%nat "m"]).
Proof.
  apply (broadcast_stops_at_first_failure (closed 2%nat) (λ l, l)
           schemas.TicketStatus_value 1 "m" three_sockets [1%nat] 2%nat [3%nat]
           RuntimeError).
  - by vm_compute.
  - intros [|[|i]] ws Hi; by inversion Hi.
  - by vm_compute.
Defined.



(** C4 as stated fails when the socket is registered already. Socket 7 has
    connected to ticket 1 once; after a further [connect(1, 7)] then
    [disconnect(1, 7)], it is still in the collection of ticket 1 and a
    broadcast still calls it. *)
Lemma reconnect_disconnect_still_registered :
  room 1 (disconnect 1 7%nat (connect quiet 1 7%nat socket_7_subscribed).2) = [7%nat]
  ∧ since (disconnect 1 7%nat (connect quiet 1 7%nat socket_7_subscribed).2)
      (broadcast quiet 1 "m"
         (disconnect 1 7%nat (connect quiet 1 7%nat socket_7_subscribed).2)).2
    = [SendText 7%nat "m"].
Proof. split; by vm_compute. Qed.

Lemma connect_disconnect_fresh_absent_witness :
  (3%nat ∉ room 10 two_rooms)
  ∧ (3%nat ∉ room 10 (disconnect 10 3%nat (connect quiet 10 3%nat two_rooms).2))
  ∧ room 10 (disconnect 10 3%nat (connect quiet 10 3%nat two_rooms).2) = room 10 two_rooms.
Proof.
  assert (Hfresh : 3%nat ∉ room 10 two_rooms).
  { vm_compute. intros H. repeat (apply elem_of_cons in H as [H|H]; [done|]).
    by apply elem_of_nil in H. }
  destruct (connect_disconnect_fresh_absent quiet 10 3%nat two_rooms Hfresh)
    as (Habsent & Hsame & _).
  split; [exact Hfresh|]. split; [exact Habsent|exact Hsame].
Defined.

(** Socket 7 connects twice to ticket 1 of an empty registry. *)
Lemma connect_twice_registers_twice_witness :
  connect quiet 1 7%nat init = (Ok tt, socket_7_subscribed)
  ∧ room 1 (connect quiet 1 7%nat socket_7_subscribed).2 = [7; 7]%nat
  ∧ made (SendText 7%nat "m")
      (since (connect quiet 1 7%nat socket_7_subscribed).2
         (broadcast quiet 1 "m" (connect quiet 1 7%nat socket_7_subscribed).2).2)
    = 2%nat
  ∧ 7%nat ∈ room 1 (disconnect 1 7%nat (connect quiet 1 7%nat socket_7_subscribed).2).
Proof.
  assert (H1 : connect quiet 1 7%nat init = (Ok tt, socket_7_subscribed))
    by (by vm_compute).
  assert (H2 : connect quiet 1 7%nat socket_7_subscribed
               = (Ok tt, (connect quiet 1 7%nat socket_7_subscribed).2))
    by (by vm_compute).
  destruct (connect_twice_registers_twice quiet 1 7%nat init _ _ H1 H2)
    as (Hroom & Hocc & Hsent & _ & Hin).
  split; [exact H1|]. split; [exact Hroom|]. split; [|exact Hin].
  rewrite (Hsent "m" (broadcast quiet 1 "m" (connect quiet 1 7%nat socket_7_subscribed).2).2)
    by (by vm_compute).
  exact Hocc.
Defined.

Lemma detail_allowed_iff_agent_or_owner_witness :
  ((∃ detail,
      (ticket_router.get_ticket_detail (λ l, l) 1
         (Some (User.mk 2 "user@example.com" "y" schemas.user))
         (ticket_router.mk store_two_replies init [])).1 = Ok detail)
   ↔ schemas.user = schemas.agent ∨ 2 = 2)
  ∧ (∀ detail,
       (ticket_router.get_ticket_detail (λ l, l) 1
          (Some (User.mk 2 "user@example.com" "y" schemas.user))
          (ticket_router.mk store_two_replies init [])).1
       ≠ Raise (HTTPException 404 detail)).
Proof.
  destruct (detail_allowed_iff_agent_or_owner (λ l, l) 1
              (User.mk 2 "user@example.com" "y" schemas.user)
              (Ticket.mk 1 "Printer" None schemas.open 0 2)
              (ticket_router.mk store_two_replies init []))
    as (_ & Hiff & _ & _ & H404); [by vm_compute|].
  split; [exact Hiff|exact H404].
Defined.

(** A user who is neither agent nor owner gets 403 on the existing ticket 1,
    and 404 on the missing ticket 5. *)
Example detail_stranger_forbidden :
  (ticket_router.get_ticket_detail (λ l, l) 1
     (Some (User.mk 3 "other@example.com" "z" schemas.user))
     (ticket_router.mk store_two_replies init [])).1
  = Raise (HTTPException 403 "Not allowed")
  ∧ (ticket_router.get_ticket_detail (λ l, l) 5
       (Some (User.mk 3 "other@example.com" "z" schemas.user))
       (ticket_router.mk store_two_replies init [])).1
    = Raise (HTTPException 404 "Ticket not found").
Proof. split; by vm_compute. Qed.

Lemma create_ticket_open_and_owned_witness :
  ∃ ticket db',
    ticket_operations.create_ticket "Screen" (Some "flickers") 2 store_one_ticket
    = (Ok ticket, db')
    ∧ Ticket.status ticket = schemas.open
    ∧ Ticket.created_by ticket = 2
    ∧ Ticket.created_at ticket = 10
    ∧ Ticket.title ticket = "Screen"
    ∧ Ticket.description ticket = Some "flickers"
    ∧ tickets db' !! Ticket.id ticket = Some ticket.
Proof.
  apply (create_ticket_open_and_owned "Screen" (Some "flickers") 2 store_one_ticket).
  vm_compute. by eexists.
Defined.



(** Closing the open ticket 1 stores [close]; opening it again, while it is
    open, gives the store back unchanged. *)
Lemma change_ticket_status_overwrites_witness :
  (∃ ticket' db',
     ticket_operations.change_ticket_status
       (Ticket.mk 1 "Printer" None schemas.open 0 2) schemas.close store_one_ticket
     = (Ok ticket', db')
     ∧ Ticket.status ticket' = schemas.close)
  ∧ ticket_operations.change_ticket_status
      (Ticket.mk 1 "Printer" None schemas.open 0 2) schemas.open store_one_ticket
    = (Ok (Ticket.mk 1 "Printer" None schemas.open 0 2), store_one_ticket).
Proof.
  split.
  - destruct (change_ticket_status_overwrites
                (Ticket.mk 1 "Printer" None schemas.open 0 2) schemas.close
                store_one_ticket)
      as (ticket' & db' & Hrun & Hstatus & _); [by vm_compute|].
    by exists ticket', db'.
  - destruct (change_ticket_status_overwrites
                (Ticket.mk 1 "Printer" None schemas.open 0 2) schemas.open
                store_one_ticket)
      as (ticket' & db' & Hrun & _ & _ & _ & _ & _ & Hsame); [by vm_compute|].
    destruct Hsame as [-> ->]; [done|]. exact Hrun.
Defined.

End Examples.

(** ** More on the registry and on the socket endpoint *)

Section RegistryHistories.
Import websocket_manager websocket_router.
Variable transport : list call → call → option exn.
Local Abbreviation accepted := (accepted transport).
Local Abbreviation registry_step := (registry_step transport).

Lemma remove_first_occurrence ws l1 l2 :
  ws ∉ l1 → remove ws (l1 ++ ws :: l2) = l1 ++ l2.
Proof.
  induction l1 as [|x l1 IH]; intros Hnin; cbn.
  - by rewrite decide_True.
  - destruct (decide (x = ws)) as [->|]; [by destruct Hnin; left|].
    f_equal. apply IH. intros H. apply Hnin. by right.
Qed.

Lemma remove_subseteq ws l : remove ws l ⊆ l.
Proof.
  induction l as [|x l IH]; [done|]. cbn.
  destruct (decide (x = ws)); intros y Hy.
  - by right.
  - apply elem_of_cons in Hy as [->|Hy]; [by left|]. right. by apply IH.
Qed.

Lemma disconnect_unregistered ticket_id ws self :
  ws ∉ room ticket_id self → disconnect ticket_id ws self = self.
Proof.
  unfold disconnect, room. destruct (active self !! ticket_id) as [l|]; [|done].
  cbn. intros Hnin. by rewrite decide_False.
Qed.

Lemma disconnect_dom ticket_id ws self :
  dom (active (disconnect ticket_id ws self)) = dom (active self).
Proof.
  unfold disconnect. destruct (active self !! ticket_id) as [l|] eqn:Hl; [|done].
  destruct (decide (ws ∈ l)); [|done]. cbn.
  apply dom_insert_lookup_L. by rewrite Hl.
Qed.

Lemma disconnect_room_subseteq ticket_id ticket_id' ws self :
  room ticket_id' (disconnect ticket_id ws self) ⊆ room ticket_id' self.
Proof.
  destruct (decide (ticket_id = ticket_id')) as [<-|Hne].
  - rewrite disconnect_room. apply remove_subseteq.
  - by rewrite disconnect_room_other.
Qed.

(** The whole of [ticket_ws] once a token is there, by what [accept] does. *)
Lemma ticket_ws_with_token ticket_id ws query_params inbox self :
  truthy (query_params !! "token") = true →
  ticket_ws transport ticket_id ws query_params inbox self =
  match transport (wire self) (Accept ws) with
  | None =>
      let registered :=
        mk (<[ticket_id := room ticket_id self ++ [ws]]> (active self))
           (wire self ++ [Accept ws]) in
      if text_only inbox then (Ok tt, disconnect ticket_id ws registered)
      else (Raise KeyError, registered)
  | Some WebSocketDisconnect =>
      (Ok tt, disconnect ticket_id ws (mk (active self) (wire self ++ [Accept ws])))
  | Some e => (Raise e, mk (active self) (wire self ++ [Accept ws]))
  end.
Proof.
  intros H. unfold ticket_ws. rewrite H. cbn [negb].
  unfold try_except, bind at 1. rewrite connect_unfold.
  destruct (transport (wire self) (Accept ws)) as [e|].
  - by destruct e.
  - rewrite receive_loop_raises. by destruct (text_only inbox).
Qed.

Lemma ticket_ws_without_token ticket_id ws query_params inbox self :
  truthy (query_params !! "token") = false →
  ticket_ws transport ticket_id ws query_params inbox self =
  (match transport (wire self) (Close ws 4401) with
   | None => Ok tt
   | Some e => Raise e
   end,
   mk (active self) (wire self ++ [Close ws 4401])).
Proof.
  intros H. unfold ticket_ws. rewrite H. cbn [negb].
  unfold ws_call. by destruct (transport _ _).
Qed.

(** Each use of the manager leaves the calls made so far in place. *)
Lemma registry_step_wire self self' :
  registry_step self self' → ∃ more, wire self' = wire self ++ more.
Proof.
  intros [t ws s|t ws s|t m s|t ws qp inbox s].
  - rewrite connect_unfold. destruct (transport _ _); by eexists.
  - exists []. by rewrite disconnect_wire, app_nil_r.
  - rewrite broadcast_unfold.
    destruct (send_each_prefix transport m (room t s) s) as (k & _ & -> & _).
    by eexists.
  - destruct (truthy (qp !! "token")) eqn:Htoken.
    + rewrite ticket_ws_with_token by done.
      destruct (transport _ _) as [[]|]; [..|destruct (text_only inbox)];
        cbn [snd]; rewrite ?disconnect_wire; by eexists.
    + rewrite ticket_ws_without_token by done. by eexists.
Qed.

(** Each use of the manager leaves in a room only sockets that were there,
    or one whose [accept] has just returned. *)
Lemma registry_step_room self self' ticket_id ws :
  registry_step self self' →
  ws ∈ room ticket_id self' →
  ws ∈ room ticket_id self
  ∨ (transport (wire self) (Accept ws) = None
     ∧ ∃ more, wire self' = wire self ++ Accept ws :: more).
Proof.
  intros [t x s|t x s|t m s|t x qp inbox s] Hin.
  - rewrite connect_unfold in Hin |- *.
    destruct (transport (wire s) (Accept x)) as [e|] eqn:Hacc; cbn [snd] in *.
    + by left.
    + destruct (decide (t = ticket_id)) as [->|Hne].
      * rewrite room_insert in Hin. apply elem_of_app in Hin as [Hin|Hin]; [by left|].
        apply list_elem_of_singleton in Hin as ->. right. split; [done|]. by exists [].
      * left. revert Hin. unfold room. cbn. by rewrite lookup_insert_ne.
  - left. revert Hin. apply disconnect_room_subseteq.
  - left. by rewrite broadcast_room in Hin.
  - destruct (truthy (qp !! "token")) eqn:Htoken.
    + rewrite ticket_ws_with_token in Hin |- * by done.
      destruct (transport (wire s) (Accept x)) as [e|] eqn:Hacc.
      * left. destruct e; cbn [snd] in Hin; try done.
        by apply disconnect_room_subseteq in Hin.
      * assert (Hin' : ws ∈ room ticket_id
                   (mk (<[t := room t s ++ [x]]> (active s)) (wire s ++ [Accept x]))).
        { destruct (text_only inbox); cbn [snd] in Hin; [|done].
          by apply disconnect_room_subseteq in Hin. }
        assert (Hwire : wire (if text_only inbox
                   then (Ok tt, disconnect t x
                          (mk (<[t := room t s ++ [x]]> (active s))
                              (wire s ++ [Accept x])))
                   else (Raise KeyError,
                         mk (<[t := room t s ++ [x]]> (active s))
                            (wire s ++ [Accept x]))).2
                 = wire s ++ [Accept x]).
        { destruct (text_only inbox); cbn [snd]; [by rewrite disconnect_wire|done]. }
        cbn zeta. rewrite Hwire. clear Hwire Hin. rename Hin' into Hin.
        destruct (decide (t = ticket_id)) as [->|Hne].
        -- rewrite room_insert in Hin.
           apply elem_of_app in Hin as [Hin|Hin]; [by left|].
           apply list_elem_of_singleton in Hin as ->. right. split; [done|]. by exists [].
        -- left. revert Hin. unfold room. cbn. by rewrite lookup_insert_ne.
    + rewrite ticket_ws_without_token in Hin by done. by left.
Qed.

Lemma registry_step_dom self self' :
  registry_step self self' → dom (active self) ⊆ dom (active self').
Proof.
  intros [t ws s|t ws s|t m s|t ws qp inbox s].
  - rewrite connect_unfold. destruct (transport _ _); cbn; [done|].
    rewrite dom_insert_L. set_solver.
  - by rewrite disconnect_dom.
  - by rewrite broadcast_active.
  - destruct (truthy (qp !! "token")) eqn:Htoken.
    + rewrite ticket_ws_with_token by done.
      destruct (transport _ _) as [[]|]; [..|destruct (text_only inbox)];
        cbn [snd]; rewrite ?disconnect_dom; cbn; try done;
        rewrite dom_insert_L; set_solver.
    + by rewrite ticket_ws_without_token.
Qed.

Lemma accepted_app calls more ws : accepted calls ws → accepted (calls ++ more) ws.
Proof.
  intros (before & after & -> & Hacc). exists before, (after ++ more).
  by rewrite <- app_assoc.
Qed.

(** X1. [disconnect(t, c)] of a socket that is not registered for [t], or
    of a ticket with no entry, hands the manager back as it was; otherwise
    it takes out the first occurrence of [c] and keeps the other sockets in
    their order. Either way it makes no call on a socket and neither adds
    nor drops a ticket entry. *)
Theorem disconnect_takes_first_occurrence ticket_id ws self :
  (ws ∉ room ticket_id self → disconnect ticket_id ws self = self)
  ∧ (∀ l1 l2, room ticket_id self = l1 ++ ws :: l2 → ws ∉ l1 →
       room ticket_id (disconnect ticket_id ws self) = l1 ++ l2)
  ∧ dom (active (disconnect ticket_id ws self)) = dom (active self)
  ∧ wire (disconnect ticket_id ws self) = wire self.
Proof.
  split; [apply disconnect_unregistered|]. split.
  - intros l1 l2 Hroom Hnin. rewrite disconnect_room, Hroom.
    by apply remove_first_occurrence.
  - split; [apply disconnect_dom|apply disconnect_wire].
Qed.

(** X2. No use of the manager ever drops a ticket's entry: the tickets with
    an entry only grow, and a room emptied by [disconnect] stays in the
    dictionary as an empty list. *)
Theorem registry_keeps_every_entry self self' :
  rtc registry_step self self' →
  dom (active self) ⊆ dom (active self')
  ∧ ∀ ticket_id ws,
      room ticket_id self' = [ws] →
      active (disconnect ticket_id ws self') !! ticket_id = Some [].
Proof.
  intros Hsteps. split.
  - induction Hsteps as [|s1 s2 s3 Hstep _ IH]; [done|].
    etrans; [by apply registry_step_dom|done].
  - intros ticket_id ws Hroom. unfold disconnect. unfold room in Hroom.
    destruct (active self' !! ticket_id) as [l|]; cbn in Hroom; [|done]. subst l.
    rewrite decide_True by (by left). cbn. rewrite lookup_insert_eq.
    by rewrite decide_True.
Qed.

(** X3. From the empty registry, whatever is done with the manager, every
    socket found in a room was accepted first: it is registered only after
    an [accept] on it that returned. *)
Theorem registered_sockets_were_accepted self ticket_id ws :
  rtc registry_step init self →
  ws ∈ room ticket_id self →
  accepted (wire self) ws.
Proof.
  intros Hsteps. revert ticket_id ws.
  apply (rtc_ind_r (R := registry_step)
           (λ s, ∀ ticket_id ws, ws ∈ room ticket_id s → accepted (wire s) ws)
           init); [| |exact Hsteps].
  - intros ticket_id ws Hin. unfold room in Hin. cbn in Hin. rewrite lookup_empty in Hin.
    by apply elem_of_nil in Hin.
  - intros s2 s3 _ Hstep IH ticket_id ws Hin.
    destruct (registry_step_room _ _ _ _ Hstep Hin) as [Hold|(Hacc & more & Hwire)].
    + destruct (registry_step_wire _ _ Hstep) as (more & ->).
      apply accepted_app. by apply (IH ticket_id).
    + rewrite Hwire. by exists (wire s2), more.
Qed.

(** X4. Two broadcasts to a ticket whose sends all return reach the room one
    after the other: every socket gets the first message before any socket
    gets the second. *)
Theorem broadcasts_arrive_in_call_order ticket_id message1 message2 self :
  deliverable transport (wire self) message1 (room ticket_id self) →
  deliverable transport (wire self ++ sends message1 (room ticket_id self))
    message2 (room ticket_id self) →
  (bind (broadcast transport ticket_id message1)
        (λ _, broadcast transport ticket_id message2)) self
  = (Ok tt,
     mk (active self)
        (wire self ++ sends message1 (room ticket_id self)
                   ++ sends message2 (room ticket_id self))).
Proof.
  intros H1 H2. unfold bind. rewrite broadcast_unfold.
  rewrite (send_each_ok transport _ _ _ H1).
  rewrite broadcast_unfold. unfold room at 1. cbn [active]. fold (room ticket_id self).
  rewrite send_each_ok by (cbn [wire]; done). cbn. by rewrite <- app_assoc.
Qed.

(** X5. A connect request whose [token] parameter is missing or empty is
    answered with one [close(code=4401)] and nothing else: the socket is
    not accepted, the registry is as it was, and the handler ends as that
    [close] does. *)
Theorem ticket_ws_no_token_closes ticket_id ws query_params inbox self :
  query_params !! "token" = None ∨ query_params !! "token" = Some "" →
  (ticket_ws transport ticket_id ws query_params inbox self).2
  = mk (active self) (wire self ++ [Close ws 4401])
  ∧ (ticket_ws transport ticket_id ws query_params inbox self).1
    = match transport (wire self) (Close ws 4401) with
      | None => Ok tt
      | Some e => Raise e
      end.
Proof.
  intros Htoken.
  rewrite ticket_ws_without_token by (by destruct Htoken as [-> | ->]).
  done.
Qed.

(** X6. A session of the endpoint on a socket not yet registered, with any
    non-empty token and an [accept] that returns, ends normally when the
    client leaves, as long as every frame it sent was a text frame: the
    only call made is the [accept], the socket is out of the room again,
    the ticket keeps its entry, and every other room is untouched. *)
Theorem ticket_ws_session_releases ticket_id ws query_params inbox self :
  truthy (query_params !! "token") = true →
  transport (wire self) (Accept ws) = None →
  ws ∉ room ticket_id self →
  text_only inbox = true →
  ticket_ws transport ticket_id ws query_params inbox self
  = (Ok tt,
     mk (<[ticket_id := room ticket_id self]> (active self))
        (wire self ++ [Accept ws])).
Proof.
  intros Htoken Hacc Hfresh Htext.
  rewrite ticket_ws_with_token, Hacc, Htext by done. cbn zeta.
  f_equal. unfold disconnect. cbn [active wire]. rewrite lookup_insert_eq.
  rewrite decide_True by (apply elem_of_app; right; by left).
  by rewrite insert_insert_eq, remove_app_fresh.
Qed.

(** X7. When the [accept] of a session raises, the socket (not registered
    before) is not registered: a [WebSocketDisconnect] is absorbed and the
    handler returns, any other exception leaves the handler, and in both
    cases the registry is as it was. *)
Theorem ticket_ws_accept_refused ticket_id ws query_params inbox self e :
  truthy (query_params !! "token") = true →
  transport (wire self) (Accept ws) = Some e →
  ws ∉ room ticket_id self →
  ticket_ws transport ticket_id ws query_params inbox self
  = (match e with WebSocketDisconnect => Ok tt | _ => Raise e end,
     mk (active self) (wire self ++ [Accept ws])).
Proof.
  intros Htoken Hacc Hfresh. rewrite ticket_ws_with_token, Hacc by done.
  destruct e; try done. by rewrite disconnect_unregistered.
Qed.


End RegistryHistories.

(** ** More on the store: what every history keeps *)

Section StoreHistories.
Import models database ticket_operations.
Variable users_id_seq : DB → Z.
Variable row_order : list Reply.t → list Reply.t.
Local Abbreviation store_step := (store_step users_id_seq).

Lemma find_app_Some {A} (f : A → bool) l l' x :
  List.find f l = Some x → List.find f (l ++ l') = Some x.
Proof.
  induction l as [|y l IH]; [done|]. cbn. by destruct (f y).
Qed.

Lemma find_None_fmap {A B} `{EqDecision B} (g : A → B) (b : B) l :
  List.find (λ a, bool_decide (g a = b)) l = None ↔ b ∉ g <$> l.
Proof.
  induction l as [|y l IH]; cbn.
  - split; [intros _ H; by apply elem_of_nil in H|done].
  - rewrite not_elem_of_cons. destruct (decide (g y = b)) as [Heq|Hne].
    + rewrite bool_decide_eq_true_2 by done. split; [done|]. intros [H _]. by destruct H.
    + rewrite bool_decide_eq_false_2 by done. rewrite IH. split; [|tauto].
      intros H. split; [congruence|done].
Qed.

Lemma find_Some_elem_of {A B} `{EqDecision B} (g : A → B) (b : B) l x :
  List.find (λ a, bool_decide (g a = b)) l = Some x → x ∈ l ∧ g x = b.
Proof.
  induction l as [|y l IH]; [done|]. cbn.
  destruct (decide (g y = b)) as [Heq|Hne].
  - rewrite bool_decide_eq_true_2 by done. intros [= <-]. split; [by left|done].
  - rewrite bool_decide_eq_false_2 by done. intros [Hin Hg]%IH. split; [by right|done].
Qed.

Lemma find_is_Some {A B} `{EqDecision B} (g : A → B) l x :
  x ∈ l → is_Some (List.find (λ a, bool_decide (g a = g x)) l).
Proof.
  intros Hin. destruct (List.find _ l) eqn:Hfind; [by eexists|].
  apply find_None_fmap in Hfind. destruct Hfind. by apply list_elem_of_fmap_2.
Qed.

Lemma user_by_id_None db user_id :
  user_by_id db user_id = None ↔ user_id ∉ User.id <$> users db.
Proof. apply find_None_fmap. Qed.

Lemma user_by_email_None db email :
  user_by_email db email = None ↔ email ∉ User.email <$> users db.
Proof. apply find_None_fmap. Qed.

Lemma user_by_email_Some db email u :
  user_by_email db email = Some u → u ∈ users db ∧ User.email u = email.
Proof. apply find_Some_elem_of. Qed.

Lemma user_by_id_grows db db' more user_id :
  users db' = users db ++ more →
  is_Some (user_by_id db user_id) → is_Some (user_by_id db' user_id).
Proof.
  intros Husers [u Hu]. exists u. unfold user_by_id in *. rewrite Husers.
  by apply find_app_Some.
Qed.

Lemma references_user_true db user_id :
  references_user db user_id = true →
  foreign_keys db = true → is_Some (user_by_id db user_id).
Proof.
  unfold references_user. intros H Hfk. rewrite Hfk in H. cbn in H.
  by apply bool_decide_eq_true_1 in H.
Qed.

Lemma create_user_run email hashed_password role db :
  auth_operation.create_user users_id_seq email hashed_password role db
  = (Raise IntegrityError, db)
  ∨ (user_by_email db email = None
     ∧ user_by_id db (users_id_seq db) = None
     ∧ auth_operation.create_user users_id_seq email hashed_password role db
       = (Ok (User.mk (users_id_seq db) email hashed_password role),
          mk (users db ++ [User.mk (users_id_seq db) email hashed_password role])
             (tickets db) (replies db) (tickets_id_seq db) (replies_id_seq db)
             (now db) (foreign_keys db) (integer_bound db))).
Proof.
  unfold auth_operation.create_user. cbn [User.id].
  destruct (user_by_email db email) as [u|] eqn:He.
  - left. by rewrite bool_decide_eq_true_2.
  - rewrite bool_decide_eq_false_2 by (by intros [? ?]). cbn [orb].
    destruct (user_by_id db (users_id_seq db)) as [u|] eqn:Hi.
    + left. by rewrite bool_decide_eq_true_2.
    + right. by rewrite bool_decide_eq_false_2 by (by intros [? ?]).
Qed.

Lemma create_ticket_run title description created_by db :
  (create_ticket title description created_by db).2 = db
  ∨ (references_user db created_by = true
     ∧ create_ticket title description created_by db
       = (Ok (Ticket.mk (tickets_id_seq db) title description schemas.open
                (now db) created_by),
          mk (users db)
             (<[tickets_id_seq db :=
                  Ticket.mk (tickets_id_seq db) title description schemas.open
                    (now db) created_by]> (tickets db))
             (replies db) (tickets_id_seq db + 1) (replies_id_seq db) (now db)
             (foreign_keys db) (integer_bound db))).
Proof.
  unfold create_ticket. destruct (binds_user db created_by); [|by left].
  destruct (references_user db created_by); [right|left]; done.
Qed.

Lemma add_reply_run ticket_id message replied_by db :
  (add_reply ticket_id message replied_by db).2 = db
  ∨ (is_Some (tickets db !! ticket_id)
     ∧ references_user db replied_by = true
     ∧ add_reply ticket_id message replied_by db
       = (Ok (Some (Reply.mk (replies_id_seq db) ticket_id message (now db) replied_by)),
          mk (users db) (tickets db)
             (replies db
              ++ [Reply.mk (replies_id_seq db) ticket_id message (now db) replied_by])
             (tickets_id_seq db) (replies_id_seq db + 1) (now db) (foreign_keys db) (integer_bound db))).
Proof.
  unfold add_reply. destruct (tickets db !! ticket_id) as [t|];
    [|by left; destruct (bindable db ticket_id)].
  destruct (binds_user db replied_by); [|by left].
  destruct (references_user db replied_by); [right|left]; done.
Qed.

Lemma empty_store_ok foreign_keys now : store_ok (empty_store foreign_keys now).
Proof.
  split; cbn; try done; try apply NoDup_nil_2;
    try (by intros r Hr%elem_of_nil); by intros _ r Hr%elem_of_nil.
Qed.

Lemma store_step_ok db db' : store_ok db → store_step db db' → store_ok db'.
Proof.
  intros Hok Hstep. revert Hok.
  destruct Hstep as [email hashed role d|title description created_by d
                    |ticket_id message replied_by d|ticket status d Hstored|d];
    intros Hok.
  - destruct (create_user_run email hashed role d) as [->|(He & Hi & ->)]; [done|].
    cbn [snd]. destruct Hok. split; cbn; try done.
    + rewrite fmap_app. apply NoDup_app. split; [done|]. split.
      * intros x Hx [->|[]%elem_of_nil]%elem_of_cons. by apply user_by_id_None in Hi.
      * apply NoDup_singleton.
    + rewrite fmap_app. apply NoDup_app. split; [done|]. split.
      * intros x Hx [->|[]%elem_of_nil]%elem_of_cons. by apply user_by_email_None in He.
      * apply NoDup_singleton.
    + intros Hfk k t Ht. destruct (owners_known0 Hfk k t Ht) as [u Hu].
      exists u. by apply find_app_Some.
    + intros Hfk r Hr. destruct (repliers_known0 Hfk r Hr) as [u Hu].
      exists u. by apply find_app_Some.
  - destruct (create_ticket_run title description created_by d) as [->|(Href & ->)];
      [done|].
    cbn [snd]. destruct Hok. split; cbn; try done.
    + intros k t. rewrite lookup_insert. case_decide as Hk.
      * intros [= <-]. done.
      * apply tickets_keyed0.
    + intros k t. rewrite lookup_insert. case_decide as Hk.
      * intros _. subst k. lia.
      * intros Ht%tickets_below_seq0. lia.
    + intros r Hr. rewrite lookup_insert. case_decide; [by eexists|].
      by apply replies_belong0.
    + intros Hfk k t. rewrite lookup_insert. case_decide as Hk.
      * intros [= <-]. cbn. by apply (references_user_true d).
      * by apply owners_known0.
  - destruct (add_reply_run ticket_id message replied_by d)
      as [->|(Hticket & Href & ->)]; [done|].
    cbn [snd]. destruct Hok. split; cbn; try done.
    + intros r [Hr|Hr]%elem_of_app.
      * apply replies_below_seq0 in Hr. lia.
      * apply list_elem_of_singleton in Hr as ->. cbn. lia.
    + rewrite fmap_app. apply NoDup_app. split; [done|]. split.
      * intros x Hx [->|[]%elem_of_nil]%elem_of_cons.
        apply list_elem_of_fmap in Hx as (r & Hid & Hr).
        apply replies_below_seq0 in Hr. cbn in Hid. lia.
      * apply NoDup_singleton.
    + intros r [Hr|Hr]%elem_of_app; [by apply replies_belong0|].
      by apply list_elem_of_singleton in Hr as ->.
    + intros Hfk r [Hr|Hr]%elem_of_app; [by apply repliers_known0|].
      apply list_elem_of_singleton in Hr as ->. cbn.
      by apply (references_user_true d).
  - rewrite (change_ticket_status_stored _ _ _ Hstored). cbn [snd].
    destruct Hok. split; cbn; try done.
    + intros k t. rewrite lookup_insert. case_decide as Hk.
      * intros [= <-]. done.
      * apply tickets_keyed0.
    + intros k t. rewrite lookup_insert. case_decide as Hk.
      * intros _. subst k. by eapply tickets_below_seq0.
      * apply tickets_below_seq0.
    + intros r Hr. rewrite lookup_insert. case_decide; [by eexists|].
      by apply replies_belong0.
    + intros Hfk k t. rewrite lookup_insert. case_decide as Hk.
      * intros [= <-]. cbn. by eapply owners_known0.
      * by apply owners_known0.
  - destruct Hok. by split.
Qed.

Lemma same_ticket_refl t : same_ticket t t.
Proof. by repeat split. Qed.

Lemma keeps_refl db : keeps db db.
Proof.
  split; [done|]. split; [done|]. intros k t Ht. exists t. split; [done|].
  apply same_ticket_refl.
Qed.

Lemma keeps_trans db1 db2 db3 : keeps db1 db2 → keeps db2 db3 → keeps db1 db3.
Proof.
  intros (Hu1 & Hr1 & Ht1) (Hu2 & Hr2 & Ht2).
  split; [by etrans|]. split; [by etrans|].
  intros k t Ht. destruct (Ht1 k t Ht) as (t' & Ht' & Hs1).
  destruct (Ht2 k t' Ht') as (t'' & Ht'' & Hs2). exists t''. split; [done|].
  destruct Hs1 as (? & ? & ? & ? & ?), Hs2 as (? & ? & ? & ? & ?).
  repeat split; congruence.
Qed.

Lemma store_step_keeps db db' : store_ok db → store_step db db' → keeps db db'.
Proof.
  intros Hok Hstep. revert Hok.
  destruct Hstep as [email hashed role d|title description created_by d
                    |ticket_id message replied_by d|ticket status d Hstored|d];
    intros Hok.
  - destruct (create_user_run email hashed role d) as [->|(He & Hi & ->)];
      [apply keeps_refl|].
    cbn [snd]. split; cbn; [by apply prefix_app_r|]. split; [done|].
    intros k t Ht. exists t. split; [done|apply same_ticket_refl].
  - destruct (create_ticket_run title description created_by d) as [->|(Href & ->)];
      [apply keeps_refl|].
    cbn [snd]. split; cbn; [done|]. split; [done|].
    intros k t Ht. exists t. split; [|apply same_ticket_refl].
    rewrite lookup_insert_ne; [done|].
    apply (tickets_below_seq _ Hok) in Ht. lia.
  - destruct (add_reply_run ticket_id message replied_by d)
      as [->|(Hticket & Href & ->)]; [apply keeps_refl|].
    cbn [snd]. split; cbn; [done|]. split; [by apply prefix_app_r|].
    intros k t Ht. exists t. split; [done|apply same_ticket_refl].
  - rewrite (change_ticket_status_stored _ _ _ Hstored). cbn [snd].
    split; cbn; [done|]. split; [done|].
    intros k t Ht. destruct (decide (Ticket.id ticket = k)) as [<-|Hne].
    + rewrite lookup_insert_eq. eexists. split; [done|].
      rewrite Hstored in Ht. injection Ht as <-. by repeat split.
    + rewrite lookup_insert_ne by done. exists t. split; [done|apply same_ticket_refl].
  - split; cbn; [done|]. split; [done|].
    intros k t Ht. exists t. split; [done|apply same_ticket_refl].
Qed.

(** X8. Every operation on the store keeps it consistent: starting from a
    consistent store (the empty one is), after any sequence of user
    creations, ticket creations, replies, status changes and clock ticks,
    tickets are keyed by their id, reply ids, user ids and emails do not
    repeat, ids lie below their sequences, every reply belongs to an
    existing ticket, and under enforced foreign keys every owner and
    replier is a stored user. *)
Theorem store_stays_consistent db db' :
  store_ok db → rtc store_step db db' → store_ok db'.
Proof.
  intros Hok Hsteps. induction Hsteps as [|d1 d2 d3 Hstep _ IH]; [done|].
  apply IH. by apply (store_step_ok d1).
Qed.

(** X9. No operation on a consistent store deletes or rewrites history:
    after any sequence of operations the users and the replies that were
    there are still there, unchanged and in place, and every ticket is still
    there with its id, title, description, creation time and owner; only
    its status may differ. *)
Theorem store_keeps_its_rows db db' :
  store_ok db → rtc store_step db db' → keeps db db'.
Proof.
  intros Hok Hsteps. induction Hsteps as [|d1 d2 d3 Hstep _ IH]; [apply keeps_refl|].
  apply (keeps_trans _ d2).
  - by apply store_step_keeps.
  - apply IH. by apply (store_step_ok d1).
Qed.

End StoreHistories.

(** ** More on the store: what is written is read back *)

Section StoreRoundTrips.
Import models database ticket_operations.
Variable row_order : list Reply.t → list Reply.t.

Lemma filter_none {A} (P : A → Prop) `{∀ x, Decision (P x)} (l : list A) :
  (∀ x, x ∈ l → ¬ P x) → filter P l = [].
Proof.
  induction l as [|x l IH]; [done|]. intros Hl.
  rewrite filter_cons, decide_False by (apply Hl; by left).
  apply IH. intros y Hy. apply Hl. by right.
Qed.

(** X10. On a consistent store, a ticket that [create_ticket] returns is a
    new row: its id was not in use, every other ticket is as it was, and
    reading it back with [get_ticket] gives that ticket with no reply and
    with the user it names as its creator. *)
Theorem created_ticket_is_new_and_empty title description created_by db ticket db' :
  store_ok db →
  create_ticket title description created_by db = (Ok ticket, db') →
  tickets db !! Ticket.id ticket = None
  ∧ (∀ k, k ≠ Ticket.id ticket → tickets db' !! k = tickets db !! k)
  ∧ get_ticket row_order (Ticket.id ticket) db'
    = Ok (Some (mk_loaded ticket (row_order []) (user_by_id db created_by))).
Proof.
  intros Hok Hrun. unfold create_ticket in Hrun.
  destruct (binds_user db created_by); [|done].
  destruct (references_user db created_by); [|done].
  cbn [negb] in Hrun. injection Hrun as <- <-. cbn [Ticket.id].
  assert (Hnew : tickets db !! tickets_id_seq db = None).
  { destruct (tickets db !! tickets_id_seq db) as [t|] eqn:Ht; [|done].
    apply (tickets_below_seq _ Hok) in Ht. lia. }
  split; [done|]. split.
  - intros k Hk. cbn. by rewrite lookup_insert_ne.
  - unfold get_ticket. cbn. rewrite lookup_insert_eq. cbn. do 4 f_equal.
    apply filter_none. intros r Hr Heq.
    destruct (replies_belong _ Hok r Hr) as [t Ht]. rewrite Heq, Hnew in Ht. done.
Qed.

(** X11. A reply that [add_reply] returns is read back with its ticket:
    [get_ticket_with_replies] on that ticket yields the replies it had and
    the new one (so the new one is among them, whatever order the engine
    picks), and what is read for every other ticket is unchanged. *)
Theorem reply_is_read_back ticket_id message replied_by db t reply db' :
  tickets db !! ticket_id = Some t →
  add_reply ticket_id message replied_by db = (Ok (Some reply), db') →
  let mine := filter (λ r, Reply.ticket_id r = ticket_id) (replies db) ++ [reply] in
  get_ticket_with_replies row_order ticket_id db'
  = Ok (Some (mk_loaded t (row_order mine) (user_by_id db (Ticket.created_by t)),
              row_order mine))
  ∧ (∀ other, other ≠ ticket_id →
       get_ticket_with_replies row_order other db'
       = get_ticket_with_replies row_order other db)
  ∧ ((∀ l, row_order l ≡ₚ l) → reply ∈ row_order mine).
Proof.
  intros Ht Hrun mine. subst mine.
  unfold add_reply in Hrun. rewrite Ht in Hrun.
  destruct (binds_user db replied_by); [|done].
  destruct (references_user db replied_by); [|done].
  cbn [negb] in Hrun. injection Hrun as <- <-. split; [|split].
  - unfold get_ticket_with_replies, get_ticket. cbn. rewrite Ht. cbn.
    rewrite filter_app, filter_cons, decide_True by done. done.
  - intros other Hne. unfold get_ticket_with_replies, get_ticket. cbn.
    destruct (tickets db !! other) as [t'|]; [|done]. cbn.
    rewrite filter_app, filter_cons, decide_False by (cbn; congruence).
    cbn. by rewrite app_nil_r.
  - intros Hperm. rewrite (Hperm _). apply elem_of_app. right. by left.
Qed.

(** X12. A status written by [change_ticket_status] on a stored ticket is
    what [get_ticket] then reads, with the replies and the creator it read
    before; the other tickets read as before; and of two changes in a row
    the last one wins. *)
Theorem status_change_is_read_back ticket status db :
  tickets db !! Ticket.id ticket = Some ticket →
  let ticket' :=
    Ticket.mk (Ticket.id ticket) (Ticket.title ticket) (Ticket.description ticket)
      status (Ticket.created_at ticket) (Ticket.created_by ticket) in
  let db' := (change_ticket_status ticket status db).2 in
  (∃ replies' creator',
     get_ticket row_order (Ticket.id ticket) db
     = Ok (Some (mk_loaded ticket replies' creator'))
     ∧ get_ticket row_order (Ticket.id ticket) db'
       = Ok (Some (mk_loaded ticket' replies' creator')))
  ∧ (∀ other, other ≠ Ticket.id ticket →
       get_ticket row_order other db' = get_ticket row_order other db)
  ∧ (∀ status2,
       change_ticket_status ticket' status2 db' = change_ticket_status ticket status2 db).
Proof.
  intros Ht ticket' db'. subst ticket' db'.
  rewrite (change_ticket_status_stored _ _ _ Ht). cbn [snd]. split; [|split].
  - eexists _, _. split.
    + unfold get_ticket. by rewrite Ht.
    + unfold get_ticket. cbn. by rewrite lookup_insert_eq.
  - intros other Hne. unfold get_ticket. cbn. by rewrite lookup_insert_ne.
  - intros status2. unfold change_ticket_status. cbn.
    rewrite lookup_insert_eq, Ht. cbn. by rewrite insert_insert_eq.
Qed.

End StoreRoundTrips.

(** ** Identities: tokens, role gates, signup and login *)

Section Identities.
Import models database.
Variable users_id_seq : DB → Z.
Variable pwd_hash : string → string → string.
Variable pwd_verify : string → string → bool.
Variable jwt_encode : gmap string string → string.
Variable jwt_decode : string → option (gmap string string).
Variable ACCESS_TOKEN_EXPIRE_MINUTES : Z.
Local Abbreviation signup := (auth_router.signup users_id_seq pwd_hash).
Local Abbreviation login :=
  (auth_router.login pwd_verify jwt_encode ACCESS_TOKEN_EXPIRE_MINUTES).

Lemma user_by_email_new db email user more :
  user_by_email db email = None →
  User.email user = email →
  List.find (λ u, bool_decide (User.email u = email)) (users db ++ user :: more)
  = Some user.
Proof.
  unfold user_by_email. intros Hnone Hemail.
  induction (users db) as [|x l IH]; cbn in *.
  - by rewrite bool_decide_eq_true_2.
  - destruct (bool_decide (User.email x = email)); [done|]. by apply IH.
Qed.

Lemma signup_conflict payload salt db u :
  user_by_email db (schemas.UserCreate.email payload) = Some u →
  signup payload salt db
  = (Raise (HTTPException 400 "Email already registered"), db).
Proof.
  intros Hu. unfold auth_router.signup, bind, get, auth_operation.get_user_by_email.
  by rewrite Hu.
Qed.

Lemma signup_new payload salt db :
  user_by_email db (schemas.UserCreate.email payload) = None →
  user_by_id db (users_id_seq db) = None →
  signup payload salt db
  = (Ok (schemas.UserRead.mk (users_id_seq db) (schemas.UserCreate.email payload)
           (schemas.UserCreate.role payload)),
     mk (users db
         ++ [User.mk (users_id_seq db) (schemas.UserCreate.email payload)
               (pwd_hash salt (schemas.UserCreate.password payload))
               (schemas.UserCreate.role payload)])
        (tickets db) (replies db) (tickets_id_seq db) (replies_id_seq db)
        (now db) (foreign_keys db) (integer_bound db)).
Proof.
  intros He Hi. unfold auth_router.signup, bind at 1, get.
  unfold auth_operation.get_user_by_email. rewrite He. unfold bind.
  destruct (create_user_run users_id_seq (schemas.UserCreate.email payload)
              (auth.hash_password pwd_hash salt (schemas.UserCreate.password payload))
              (schemas.UserCreate.role payload) db) as [Hbad|(_ & _ & ->)]; [|done].
  unfold auth_operation.create_user in Hbad. cbn [User.id] in Hbad.
  rewrite He, Hi in Hbad.
  rewrite !bool_decide_eq_false_2 in Hbad by (by intros [? ?]). done.
Qed.

Lemma login_run username password utcnow db :
  login username password utcnow db
  = (match user_by_email db username with
     | None => Raise (HTTPException 404 "User not found")
     | Some user =>
         if pwd_verify password (User.hashed_password user)
         then Ok (schemas.Token.mk
                    (jwt_encode
                       (<["exp" := pretty (utcnow + ACCESS_TOKEN_EXPIRE_MINUTES * 60)]>
                          {["sub" := User.email user]}))
                    "bearer")
         else Raise (HTTPException 401 "Incorrect password")
     end, db).
Proof.
  unfold auth_router.login, bind, get, auth.authenticate_user,
    auth_operation.get_user_by_email, auth.verify_password, auth.create_access_token.
  destruct (user_by_email db username) as [user|]; [|done].
  by destruct (pwd_verify password (User.hashed_password user)).
Qed.

(** X13. [get_current_user] never invents an identity: when it returns a
    user, that user is a row of the store and the token decodes to a claim
    set whose [sub] is the user's email. A token that does not decode, a
    claim set without [sub], or a [sub] that is no user's email give
    [None]; nothing is raised. *)
Theorem get_current_user_is_a_stored_user token db :
  (∀ u, auth.get_current_user jwt_decode token db = Some u →
     u ∈ users db
     ∧ ∃ payload, jwt_decode token = Some payload
                  ∧ payload !! "sub" = Some (User.email u))
  ∧ (jwt_decode token = None → auth.get_current_user jwt_decode token db = None)
  ∧ (∀ payload, jwt_decode token = Some payload →
       payload !! "sub" = None ∨
       (∃ email, payload !! "sub" = Some email ∧ email ∉ User.email <$> users db) →
       auth.get_current_user jwt_decode token db = None).
Proof.
  unfold auth.get_current_user. split; [|split].
  - intros u. destruct (jwt_decode token) as [payload|]; [|done].
    destruct (payload !! "sub") as [email|] eqn:Hsub; [|done].
    intros [Hin Hemail]%user_by_email_Some. split; [done|].
    exists payload. by rewrite Hemail.
  - by intros ->.
  - intros payload -> [->|(email & -> & Hnone)]; [done|].
    by apply user_by_email_None.
Qed.

(** X14. The two role gates admit exactly one role each and nothing else:
    a user passes [require_user] and is refused by [require_agent] with
    403, an agent the other way round; there is no role that passes both. *)
Theorem role_gates_admit_one_role_each u :
  (User.role u = schemas.user
   ∧ dependencies.require_user (Some u) = Ok u
   ∧ dependencies.require_agent (Some u) = Raise (HTTPException 403 "Agents only."))
  ∨ (User.role u = schemas.agent
     ∧ dependencies.require_agent (Some u) = Ok u
     ∧ dependencies.require_user (Some u) = Raise (HTTPException 403 "Users only.")).
Proof.
  unfold dependencies.require_user, dependencies.require_agent.
  destruct u as [uid email hashed []]; [left|right]; done.
Qed.

(** X15. Signup with an email no user has, and an id the sequence has not
    used, stores one more user with that email, the role asked for and the
    hash of the password (never the password itself as given), and touches
    no ticket or reply; any later signup with the same email, whatever its
    password or role, is answered 400 and changes nothing. *)
Theorem signup_registers_an_email_once payload salt db :
  user_by_email db (schemas.UserCreate.email payload) = None →
  user_by_id db (users_id_seq db) = None →
  ∃ db',
    signup payload salt db
    = (Ok (schemas.UserRead.mk (users_id_seq db) (schemas.UserCreate.email payload)
             (schemas.UserCreate.role payload)), db')
    ∧ users db'
      = users db
        ++ [User.mk (users_id_seq db) (schemas.UserCreate.email payload)
              (pwd_hash salt (schemas.UserCreate.password payload))
              (schemas.UserCreate.role payload)]
    ∧ tickets db' = tickets db
    ∧ replies db' = replies db
    ∧ ∀ payload2 salt2,
        schemas.UserCreate.email payload2 = schemas.UserCreate.email payload →
        signup payload2 salt2 db'
        = (Raise (HTTPException 400 "Email already registered"), db').
Proof.
  intros He Hi. eexists. split; [by apply signup_new|].
  split; [done|]. split; [done|]. split; [done|].
  intros payload2 salt2 Hsame. eapply signup_conflict.
  unfold user_by_email. cbn [users]. rewrite Hsame. by apply user_by_email_new.
Qed.

(** X16. Login never writes to the store and tells its failures apart: an
    email that no user has gives 404, a user whose password does not verify
    gives 401, and otherwise the answer is a bearer token signed over the
    user's email as [sub] and an expiry [ACCESS_TOKEN_EXPIRE_MINUTES]
    minutes after the clock. *)
Theorem login_tells_failures_apart username password utcnow db :
  (login username password utcnow db).2 = db
  ∧ (user_by_email db username = None →
     (login username password utcnow db).1
     = Raise (HTTPException 404 "User not found"))
  ∧ (∀ user, user_by_email db username = Some user →
       pwd_verify password (User.hashed_password user) = false →
       (login username password utcnow db).1
       = Raise (HTTPException 401 "Incorrect password"))
  ∧ (∀ user, user_by_email db username = Some user →
       pwd_verify password (User.hashed_password user) = true →
       (login username password utcnow db).1
       = Ok (schemas.Token.mk
               (jwt_encode
                  (<["exp" := pretty (utcnow + ACCESS_TOKEN_EXPIRE_MINUTES * 60)]>
                     {["sub" := User.email user]}))
               "bearer")).
Proof.
  rewrite login_run. cbn [fst snd]. split; [done|]. split; [by intros ->|].
  split; by intros user -> ->.
Qed.


End Identities.

(** ** More on the ticket routes *)

Section TicketRoutes.
Import models database websocket_manager ticket_router.
Variable transport : list call → call → option exn.
Variable row_order : list Reply.t → list Reply.t.
Variable format_status : schemas.TicketStatus → string.
Variable jwt_decode : string → option (gmap string string).
Local Abbreviation add_reply := (ticket_router.add_reply transport row_order).
Local Abbreviation update_status :=
  (ticket_router.update_status transport row_order format_status).
Local Abbreviation get_ticket_detail := (ticket_router.get_ticket_detail row_order).

Lemma since_app self a more :
  since self (websocket_manager.mk a (wire self ++ more)) = more.
Proof. unfold since. cbn [wire]. by rewrite drop_app_length. Qed.

Lemma require_agent_agent agent :
  User.role agent = schemas.agent → dependencies.require_agent (Some agent) = Ok agent.
Proof. intros H. unfold dependencies.require_agent. by rewrite H. Qed.

Lemma require_agent_user u :
  User.role u = schemas.user →
  dependencies.require_agent (Some u) = Raise (HTTPException 403 "Agents only.").
Proof. intros H. unfold dependencies.require_agent. by rewrite H. Qed.

Lemma require_user_user u :
  User.role u = schemas.user → dependencies.require_user (Some u) = Ok u.
Proof. intros H. unfold dependencies.require_user. by rewrite H. Qed.

Lemma require_user_agent agent :
  User.role agent = schemas.agent →
  dependencies.require_user (Some agent) = Raise (HTTPException 403 "Users only.").
Proof. intros H. unfold dependencies.require_user. by rewrite H. Qed.

(** A route whose gate refuses ends there. *)
Lemma add_reply_gate ticket_id message current_user e app :
  dependencies.require_agent current_user = Raise e →
  add_reply ticket_id message current_user app = (Raise e, app).
Proof. intros H. unfold ticket_router.add_reply, bind, depends. by rewrite H. Qed.

Lemma update_status_gate ticket_id status current_user e app :
  dependencies.require_agent current_user = Raise e →
  update_status ticket_id status current_user app = (Raise e, app).
Proof. intros H. unfold ticket_router.update_status, bind, depends. by rewrite H. Qed.

Lemma create_ticket_gate title description limit current_user e app :
  dependencies.require_user current_user = Raise e →
  create_ticket title description limit current_user app = (Raise e, app).
Proof. intros H. unfold create_ticket, bind, depends. by rewrite H. Qed.



(** X18. The role gate of a route comes before anything the route does: a
    user asking to reply or to change a status gets 403 and an agent
    asking to create a ticket gets 403 (even when the rate limiter would
    refuse too), with the store, the registry and the job queue untouched;
    and a request the rate limiter refuses also ends there, untouched. *)
Theorem refused_requests_change_nothing ticket_id message status title description
    limit u app :
  (User.role u = schemas.user →
     add_reply ticket_id message (Some u) app
     = (Raise (HTTPException 403 "Agents only."), app)
     ∧ update_status ticket_id status (Some u) app
       = (Raise (HTTPException 403 "Agents only."), app)
     ∧ ∀ e, create_ticket title description (Some e) (Some u) app = (Raise e, app))
  ∧ (User.role u = schemas.agent →
     create_ticket title description limit (Some u) app
     = (Raise (HTTPException 403 "Users only."), app)).
Proof.
  split.
  - intros Hrole. split; [|split].
    + by apply add_reply_gate, require_agent_user.
    + by apply update_status_gate, require_agent_user.
    + intros e. unfold create_ticket, bind, depends.
      by rewrite (require_user_user _ Hrole).
  - intros Hrole. by apply create_ticket_gate, require_user_agent.
Qed.

(** X19. A ticket id with no ticket, within the range of an [Integer]
    column, gives 404 on the three routes that take one, for any caller
    that passes the gate, and nothing is written, broadcast or queued. *)
Theorem missing_ticket_is_404_everywhere ticket_id message status agent current_user app :
  User.role agent = schemas.agent →
  tickets (db app) !! ticket_id = None →
  bindable (db app) ticket_id = true →
  add_reply ticket_id message (Some agent) app
  = (Raise (HTTPException 404 "Ticket not found"), app)
  ∧ update_status ticket_id status (Some agent) app
    = (Raise (HTTPException 404 "Ticket not found"), app)
  ∧ get_ticket_detail ticket_id current_user app
    = (Raise (HTTPException 404 "Ticket not found"), app).
Proof.
  intros Hrole Ht Hrange. split; [|split].
  - unfold ticket_router.add_reply, bind, depends, reads.
    by rewrite (require_agent_agent _ Hrole), (get_ticket_None _ _ _ Ht), Hrange.
  - unfold ticket_router.update_status, bind, depends, reads.
    by rewrite (require_agent_agent _ Hrole), (get_ticket_None _ _ _ Ht), Hrange.
  - by rewrite (get_ticket_detail_missing _ _ _ _ Ht), Hrange.
Qed.

(** X26. A ticket id that no [Integer] column can hold is not answered 404:
    on the three routes that take one, for any caller that passes the
    gate, the select raises at the driver, and nothing is written,
    broadcast or queued. *)
Theorem unbindable_ticket_id_raises_everywhere ticket_id message status agent
    current_user app :
  User.role agent = schemas.agent →
  tickets (db app) !! ticket_id = None →
  bindable (db app) ticket_id = false →
  add_reply ticket_id message (Some agent) app = (Raise DriverError, app)
  ∧ update_status ticket_id status (Some agent) app = (Raise DriverError, app)
  ∧ get_ticket_detail ticket_id current_user app = (Raise DriverError, app).
Proof.
  intros Hrole Ht Hrange. split; [|split].
  - unfold ticket_router.add_reply, bind, depends, reads.
    by rewrite (require_agent_agent _ Hrole), (get_ticket_None _ _ _ Ht), Hrange.
  - unfold ticket_router.update_status, bind, depends, reads.
    by rewrite (require_agent_agent _ Hrole), (get_ticket_None _ _ _ Ht), Hrange.
  - by rewrite (get_ticket_detail_missing _ _ _ _ Ht), Hrange.
Qed.


(** X21. A status change by an agent on an existing ticket, with every send
    to the room returning, answers with the ticket under its new status,
    stores that status and nothing else, sends "Status changed to ..." to
    each socket of the room, and queues no job. *)
Theorem status_route_stores_and_notifies ticket_id status agent t app :
  User.role agent = schemas.agent →
  tickets (db app) !! ticket_id = Some t →
  Ticket.id t = ticket_id →
  deliverable transport (wire (manager app))
    ("Status changed to " +:+ format_status status) (room ticket_id (manager app)) →
  ∃ app',
    update_status ticket_id status (Some agent) app
    = (Ok (schemas.TicketRead.mk ticket_id (Ticket.title t) (Ticket.description t)
             status (Ticket.created_by t)), app')
    ∧ Ticket.status <$> (tickets (db app') !! ticket_id) = Some status
    ∧ (∀ other, other ≠ ticket_id →
         tickets (db app') !! other = tickets (db app) !! other)
    ∧ replies (db app') = replies (db app)
    ∧ active (manager app') = active (manager app)
    ∧ since (manager app) (manager app')
      = sends ("Status changed to " +:+ format_status status)
          (room ticket_id (manager app))
    ∧ celery app' = celery app.
Proof.
  intros Hrole Ht Hid Hsend. subst ticket_id.
  unfold ticket_router.update_status, bind at 1, depends.
  rewrite (require_agent_agent _ Hrole).
  unfold bind at 1, reads. rewrite (get_ticket_Some _ _ _ _ Ht).
  unfold bind at 1, with_db at 1. cbn [ticket_operations.ticket].
  rewrite (change_ticket_status_stored _ _ _ Ht).
  cbn [db manager celery Ticket.status].
  unfold bind at 1, with_manager at 1. cbn [db manager celery].
  rewrite broadcast_unfold, (send_each_ok _ _ _ _ Hsend).
  eexists. split; [done|].
  cbn [db manager celery tickets replies active].
  rewrite lookup_insert_eq. split; [done|]. split.
  - intros other Hne. by rewrite lookup_insert_ne.
  - split; [done|]. split; [done|]. split; [|done].
    apply since_app.
Qed.


(** X23. A token that [get_current_user] does not resolve makes the gated
    routes fail on reading [.role] off [None], an [AttributeError] rather
    than a 401 or 403, before anything is done; the detail route fails the
    same way on an existing ticket, and on a missing one it answers 404, or
    raises at the driver when the id is out of an [Integer]'s range. *)
Theorem unresolved_identity_is_attribute_error token ticket_id message status title
    description limit app :
  auth.get_current_user jwt_decode token (db app) = None →
  add_reply ticket_id message (auth.get_current_user jwt_decode token (db app)) app
  = (Raise AttributeError, app)
  ∧ update_status ticket_id status (auth.get_current_user jwt_decode token (db app)) app
    = (Raise AttributeError, app)
  ∧ create_ticket title description limit
      (auth.get_current_user jwt_decode token (db app)) app
    = (Raise AttributeError, app)
  ∧ get_ticket_detail ticket_id (auth.get_current_user jwt_decode token (db app)) app
    = (match tickets (db app) !! ticket_id with
       | Some _ => Raise AttributeError
       | None =>
           if bindable (db app) ticket_id
           then Raise (HTTPException 404 "Ticket not found")
           else Raise DriverError
       end, app).
Proof.
  intros ->. split; [by apply add_reply_gate|].
  split; [by apply update_status_gate|]. split; [by apply create_ticket_gate|].
  destruct (tickets (db app) !! ticket_id) as [t|] eqn:Ht.
  - unfold ticket_router.get_ticket_detail, bind, reads.
    by rewrite (get_ticket_with_replies_Some _ _ _ _ Ht).
  - by apply get_ticket_detail_missing.
Qed.


End TicketRoutes.

(** ** The further properties at concrete inputs *)

Section FurtherExamples.
Import models database websocket_manager.

Lemma registry_keeps_every_entry_witness :
  dom (active init) ⊆ dom (active socket_7_subscribed)
  ∧ active (disconnect 1 7%nat socket_7_subscribed) !! 1 = Some [].
Proof.
  destruct (registry_keeps_every_entry quiet init socket_7_subscribed)
    as [Hdom Hkey].
  - apply rtc_once. exact (step_connect quiet 1 7%nat init).
  - split; [exact Hdom|]. apply Hkey. by vm_compute.
Defined.

Lemma registered_sockets_were_accepted_witness :
  7%nat ∈ room 1 socket_7_subscribed
  ∧ accepted quiet (wire socket_7_subscribed) 7%nat.
Proof.
  assert (Hin : 7%nat ∈ room 1 socket_7_subscribed) by (vm_compute; by left).
  split; [exact Hin|].
  apply (registered_sockets_were_accepted quiet socket_7_subscribed 1 7%nat); [|exact Hin].
  apply rtc_once. exact (step_connect quiet 1 7%nat init).
Defined.

Lemma broadcasts_arrive_in_call_order_witness :
  (bind (broadcast quiet 10 "a") (λ _, broadcast quiet 10 "b")) two_rooms
  = (Ok tt,
     mk (active two_rooms)
        (wire two_rooms ++ sends "a" (room 10 two_rooms)
                        ++ sends "b" (room 10 two_rooms))).
Proof.
  apply (broadcasts_arrive_in_call_order quiet 10 "a" "b" two_rooms);
    apply deliverable_quiet.
Defined.

Lemma ticket_ws_no_token_closes_witness :
  (websocket_router.ticket_ws quiet 1 7%nat {["token" := ""]}
     [websocket_router.Text "hi"] init).2
  = mk (active init) (wire init ++ [Close 7%nat 4401])
  ∧ (websocket_router.ticket_ws quiet 1 7%nat {["token" := ""]}
       [websocket_router.Text "hi"] init).1
    = match quiet (wire init) (Close 7%nat 4401) with
      | None => Ok tt
      | Some e => Raise e
      end.
Proof.
  apply (ticket_ws_no_token_closes quiet 1 7%nat {["token" := ""]}
           [websocket_router.Text "hi"] init).
  right. by vm_compute.
Defined.

Lemma ticket_ws_session_releases_witness :
  websocket_router.ticket_ws quiet 1 7%nat {["token" := "abc"]}
    [websocket_router.Text "hi"; websocket_router.Text "there"] init
  = (Ok tt, mk (<[1 := room 1 init]> (active init)) (wire init ++ [Accept 7%nat])).
Proof.
  apply (ticket_ws_session_releases quiet 1 7%nat {["token" := "abc"]}
           [websocket_router.Text "hi"; websocket_router.Text "there"] init).
  - by vm_compute.
  - done.
  - vm_compute. apply not_elem_of_nil.
  - by vm_compute.
Defined.


Lemma ticket_ws_accept_refused_witness :
  websocket_router.ticket_ws (refusing RuntimeError) 1 7%nat {["token" := "abc"]} [] init
  = (Raise RuntimeError, mk (active init) (wire init ++ [Accept 7%nat])).
Proof.
  apply (ticket_ws_accept_refused (refusing RuntimeError) 1 7%nat
           {["token" := "abc"]} [] init RuntimeError).
  - by vm_compute.
  - done.
  - vm_compute. apply not_elem_of_nil.
Defined.

Lemma store_stays_consistent_witness : store_ok store_with_ticket.
Proof.
  apply (store_stays_consistent toy_seq (empty_store true 0) store_with_ticket).
  - apply empty_store_ok.
  - eapply rtc_l.
    + exact (step_create_user toy_seq "agent@example.com" "x" schemas.agent
               (empty_store true 0)).
    + apply rtc_once. exact (step_create_ticket toy_seq "Printer" None 1 store_with_agent).
Defined.

Lemma store_keeps_its_rows_witness :
  keeps store_with_agent
    (ticket_operations.change_ticket_status
       (Ticket.mk 1 "Printer" None schemas.open 0 1) schemas.close
       store_with_ticket).2.
Proof.
  apply (store_keeps_its_rows toy_seq store_with_agent).
  - apply (store_step_ok toy_seq (empty_store true 0)); [apply empty_store_ok|].
    exact (step_create_user toy_seq "agent@example.com" "x" schemas.agent
             (empty_store true 0)).
  - eapply rtc_l.
    + exact (step_create_ticket toy_seq "Printer" None 1 store_with_agent).
    + apply rtc_once.
      apply (step_change_status toy_seq (Ticket.mk 1 "Printer" None schemas.open 0 1)
               schemas.close store_with_ticket).
      by vm_compute.
Defined.

Lemma created_ticket_is_new_and_empty_witness :
  tickets store_with_agent !! 1 = None
  ∧ ticket_operations.get_ticket (λ l, l) 1 store_with_ticket
    = Ok (Some (ticket_operations.mk_loaded (Ticket.mk 1 "Printer" None schemas.open 0 1)
                  [] (user_by_id store_with_agent 1))).
Proof.
  destruct (created_ticket_is_new_and_empty (λ l, l) "Printer" None 1 store_with_agent
              (Ticket.mk 1 "Printer" None schemas.open 0 1) store_with_ticket)
    as (Hnew & _ & Hread).
  - apply (store_step_ok toy_seq (empty_store true 0)); [apply empty_store_ok|].
    exact (step_create_user toy_seq "agent@example.com" "x" schemas.agent
             (empty_store true 0)).
  - by vm_compute.
  - split; [exact Hnew|exact Hread].
Defined.

Lemma reply_is_read_back_witness :
  ticket_operations.get_ticket_with_replies (λ l, l) 1 store_two_replies
  = Ok (Some (ticket_operations.mk_loaded
                (Ticket.mk 1 "Printer" None schemas.open 0 2)
                ([Reply.mk 1 1 "first" 10 1] ++ [Reply.mk 2 1 "second" 11 1])
                (Some (User.mk 2 "user@example.com" "y" schemas.user)),
              [Reply.mk 1 1 "first" 10 1] ++ [Reply.mk 2 1 "second" 11 1])).
Proof.
  destruct (reply_is_read_back (λ l, l) 1 "second" 1
              (tick (ticket_operations.add_reply 1 "first" 1 store_one_ticket).2)
              (Ticket.mk 1 "Printer" None schemas.open 0 2)
              (Reply.mk 2 1 "second" 11 1) store_two_replies)
    as (Hread & _); [by vm_compute|by vm_compute|].
  rewrite Hread. by vm_compute.
Defined.

Lemma status_change_is_read_back_witness :
  ∃ replies' creator',
    ticket_operations.get_ticket (λ l, l) 1
      (ticket_operations.change_ticket_status
         (Ticket.mk 1 "Printer" None schemas.open 0 2) schemas.close
         store_one_ticket).2
    = Ok (Some (ticket_operations.mk_loaded
                  (Ticket.mk 1 "Printer" None schemas.close 0 2) replies' creator')).
Proof.
  destruct (status_change_is_read_back (λ l, l)
              (Ticket.mk 1 "Printer" None schemas.open 0 2) schemas.close
              store_one_ticket)
    as ((replies' & creator' & _ & Hread) & _); [by vm_compute|].
  exists replies', creator'. exact Hread.
Defined.

Lemma signup_registers_an_email_once_witness :
  ∃ db',
    auth_router.signup toy_seq toy_hash
      (schemas.UserCreate.mk "new@example.com" "secret" schemas.user) "salt"
      store_one_ticket
    = (Ok (schemas.UserRead.mk 3 "new@example.com" schemas.user), db')
    ∧ auth_router.signup toy_seq toy_hash
        (schemas.UserCreate.mk "new@example.com" "other" schemas.agent) "pepper" db'
      = (Raise (HTTPException 400 "Email already registered"), db').
Proof.
  destruct (signup_registers_an_email_once toy_seq toy_hash
              (schemas.UserCreate.mk "new@example.com" "secret" schemas.user) "salt"
              store_one_ticket)
    as (db' & Hrun & _ & _ & _ & Hagain); [by vm_compute|by vm_compute|].
  exists db'. split; [exact Hrun|].
  by apply (Hagain (schemas.UserCreate.mk "new@example.com" "other" schemas.agent)).
Defined.




Lemma missing_ticket_is_404_everywhere_witness :
  ticket_router.add_reply quiet (λ l, l) 5 "hello" (Some the_agent) the_app
  = (Raise (HTTPException 404 "Ticket not found"), the_app)
  ∧ ticket_router.update_status quiet (λ l, l) schemas.TicketStatus_value 5
      schemas.close (Some the_agent) the_app
    = (Raise (HTTPException 404 "Ticket not found"), the_app)
  ∧ ticket_router.get_ticket_detail (λ l, l) 5 (Some the_owner) the_app
    = (Raise (HTTPException 404 "Ticket not found"), the_app).
Proof.
  apply (missing_ticket_is_404_everywhere quiet (λ l, l) schemas.TicketStatus_value
           5 "hello" schemas.close the_agent (Some the_owner) the_app);
    by vm_compute.
Defined.

Lemma unbindable_ticket_id_raises_everywhere_witness :
  ticket_router.add_reply quiet (λ l, l) (2 ^ 63) "hello" (Some the_agent) the_app
  = (Raise DriverError, the_app)
  ∧ ticket_router.update_status quiet (λ l, l) schemas.TicketStatus_value (2 ^ 63)
      schemas.close (Some the_agent) the_app
    = (Raise DriverError, the_app)
  ∧ ticket_router.get_ticket_detail (λ l, l) (2 ^ 63) (Some the_owner) the_app
    = (Raise DriverError, the_app).
Proof.
  apply (unbindable_ticket_id_raises_everywhere quiet (λ l, l)
           schemas.TicketStatus_value (2 ^ 63) "hello" schemas.close the_agent
           (Some the_owner) the_app);
    by vm_compute.
Defined.


Lemma status_route_stores_and_notifies_witness :
  ∃ app',
    ticket_router.update_status quiet (λ l, l) schemas.TicketStatus_value 1
      schemas.close (Some the_agent) the_app
    = (Ok (schemas.TicketRead.mk 1 "Printer" None schemas.close 2), app')
    ∧ since three_sockets (ticket_router.manager app')
      = sends "Status changed to close" [1; 2; 3]%nat
    ∧ ticket_router.celery app' = [].
Proof.
  destruct (status_route_stores_and_notifies quiet (λ l, l) schemas.TicketStatus_value
              1 schemas.close the_agent
              (Ticket.mk 1 "Printer" None schemas.open 0 2) the_app)
    as (app' & Hrun & _ & _ & _ & _ & Hsent & Hjobs).
  - done.
  - by vm_compute.
  - done.
  - apply deliverable_quiet.
  - exists app'. split; [exact Hrun|]. split; [exact Hsent|exact Hjobs].
Defined.


Lemma unresolved_identity_is_attribute_error_witness :
  ticket_router.add_reply quiet (λ l, l) 1 "hello"
    (auth.get_current_user (λ _, None) "garbage" (ticket_router.db the_app)) the_app
  = (Raise AttributeError, the_app).
Proof.
  destruct (unresolved_identity_is_attribute_error quiet (λ l, l)
              schemas.TicketStatus_value (λ _, None) "garbage" 1 "hello" schemas.close
              "Screen" None None the_app)
    as (Hreply & _); [done|exact Hreply].
Defined.


End FurtherExamples.
